(** * Neighbor search wrappers of mlpack: NeighborSearchLeaf, SpillSearch, NSModel

    A shallow embedding of
      - neighbor_search_leaf.hpp / neighbor_search_leaf_impl.hpp,
      - ns_model.hpp / ns_model_impl.hpp,
      - spill_search_impl.hpp,
    and the properties of these wrappers.

    The wrappers are glue around code that lives elsewhere (the trees, the
    NeighborSearch engine, Armadillo).  That code is taken as a parameter
    (the classes [Armadillo], [NeighborSearchLib] and [SpillLib] below);
    every call into it is recorded in a log, so that what a wrapper asks of
    its collaborators can be stated and proved. *)

From Stdlib Require Import Floats.
From stdpp Require Import base list gmap strings pretty.

Set Default Proof Using "Type*".
Set Warnings "-clear-no-such-hyp".

(* ------------------------------------------------------------------ *)
(** * Exceptions, results and the state monad                          *)
(* ------------------------------------------------------------------ *)

(** The C++ exceptions the sources throw, with their messages. *)
Inductive exn : Type :=
| runtime_error (what : string)
| invalid_argument (what : string)
| logic_error (what : string).

(** The failure conditions by the name the design gives them. *)
Definition ModelNotInitialized : exn :=
  runtime_error "no neighbor search model initialized".
Definition InvalidParameter : exn :=
  invalid_argument "tau must be non-negative".
Definition CouldNotCreate : exn :=
  runtime_error "Couldn't create NeighborSearch object".
Definition ColumnOutOfBounds : exn :=
  logic_error "Mat::col(): index out of bounds".

(** How a call ends. *)
Inductive result (A : Type) : Type :=
| Ret (a : A)       (* normal return *)
| Throw (e : exn)   (* an exception leaves the call *)
| Undefined         (* undefined behaviour: a subscript outside a
                       std::vector, a pointer to a released object *)
| OutOfFuel.        (* the loop budget of the model ran out *)
Arguments Ret {A} a.
Arguments Throw {A} e.
Arguments Undefined {A}.
Arguments OutOfFuel {A}.

(** Statements run on a store [S]: the objects and the by-reference
    arguments a method can reach.  The store survives an exception. *)
Definition M (S A : Type) : Type := S -> result A * S.

Definition ret {S A} (a : A) : M S A := fun s => (Ret a, s).
Definition throw {S A} (e : exn) : M S A := fun s => (Throw e, s).
Definition bind {S A B} (c : M S A) (k : A -> M S B) : M S B :=
  fun s =>
    match c s with
    | (Ret a, s') => k a s'
    | (Throw e, s') => (Throw e, s')
    | (Undefined, s') => (Undefined, s')
    | (OutOfFuel, s') => (OutOfFuel, s')
    end.
Definition get {S} : M S S := fun s => (Ret s, s).
Definition gets {S A} (f : S -> A) : M S A := fun s => (Ret (f s), s).
Definition modify {S} (f : S -> S) : M S unit := fun s => (Ret tt, f s).
Definition lift {S A} (r : result A) : M S A := fun s => (r, s).

Declare Scope cpp_scope.
Delimit Scope cpp_scope with cpp.
Notation "'let*' x ':=' c 'in' k" := (bind c (fun x => k))
  (at level 10, x name, c at level 200, k at level 200) : cpp_scope.
Notation "'let*' ' pat ':=' c 'in' k" :=
  (bind c (fun x => match x with pat => k end))
  (at level 10, pat pattern, c at level 200, k at level 200) : cpp_scope.
Open Scope cpp_scope.

(* ------------------------------------------------------------------ *)
(** * Matrices                                                         *)
(* ------------------------------------------------------------------ *)

(** An arma::Mat<A>: column-major, one inner list per column. *)
Record Mat (A : Type) : Type := mkMat { n_rows : nat; cols : list (list A) }.
Arguments mkMat {A} n_rows cols.
Arguments n_rows {A} m.
Arguments cols {A} m.

Definition n_cols {A} (m : Mat A) : nat := length (cols m).

(** A default-constructed matrix, and what a move leaves behind. *)
Definition empty_mat {A} : Mat A := mkMat 0 [].

(** arma::mat and arma::Mat<size_t>. *)
Definition mat : Type := Mat float.
Definition umat : Type := Mat nat.

(** [m.col(i)] read: the bounds check of Armadillo throws. *)
Definition col {A} (m : Mat A) (i : nat) : result (list A) :=
  match cols m !! i with
  | Some c => Ret c
  | None => Throw ColumnOutOfBounds
  end.

(** [m.col(j) = c]. *)
Definition set_col {A} (m : Mat A) (j : nat) (c : list A) : result (Mat A) :=
  if decide (j < n_cols m)
  then Ret (mkMat (n_rows m) (<[j := c]> (cols m)))
  else Throw ColumnOutOfBounds.

(** [v[i]] on a std::vector<size_t>. *)
Definition vector_at (v : list nat) (i : nat) : result nat :=
  match v !! i with
  | Some x => Ret x
  | None => Undefined
  end.

(** The part of Armadillo the wrappers use.  [uninit_u r c] and
    [uninit_d r c] are what is found at row [r], column [c] of memory that
    [set_size] has just obtained.  [mul a b] is the product the library
    computes once it has found the sizes compatible (see [times]).  The last
    three fields are the sizes the library documents: a product has the
    columns of its right operand, randn(d, d) has d rows, and the QR
    decomposition of a matrix with m rows has m columns in Q and m rows in
    R. *)
Class Armadillo : Type := {
  uninit_u : nat -> nat -> nat;
  uninit_d : nat -> nat -> float;
  mul : mat -> mat -> mat;                    (* A * B, sizes compatible *)
  randn : nat -> nat -> mat;                  (* the n-th draw of randn(d, d) *)
  qr : mat -> option (mat * mat);             (* qr(Q, R, X); None: it failed *)
  det : mat -> float;
  mul_n_cols : forall a b, n_cols (mul a b) = n_cols b;
  randn_n_rows : forall n d, n_rows (randn n d) = d;
  qr_sizes : forall x q0 r,
    qr x = Some (q0, r) -> n_cols q0 = n_rows x /\ n_rows r = n_rows x;
}.

(** What the size check of a product throws. *)
Definition IncompatibleSizes (a b : mat) : exn :=
  logic_error
    ("matrix multiplication: incompatible matrix dimensions: "
     +:+ pretty (n_rows a) +:+ "x" +:+ pretty (n_cols a) +:+ " and "
     +:+ pretty (n_rows b) +:+ "x" +:+ pretty (n_cols b)).

(** [A * B]: the library checks that A has as many columns as B has rows. *)
Definition times `{Armadillo} (a b : mat) : result mat :=
  if decide (n_cols a = n_rows b) then Ret (mul a b)
  else Throw (IncompatibleSizes a b).

Definition fresh_mat {A} (f : nat -> nat -> A) (r c : nat) : Mat A :=
  mkMat r (map (fun j => map (fun i => f i j) (seq 0 r)) (seq 0 c)).

(** [m.set_size(r, c)]: nothing happens when the size is already right,
    otherwise the elements are whatever the new memory holds. *)
Definition set_size {A} (f : nat -> nat -> A) (r c : nat) (m : Mat A) : Mat A :=
  if decide (n_rows m = r /\ n_cols m = c) then m else fresh_mat f r c.

(* ------------------------------------------------------------------ *)
(** * The NeighborSearch engine and the trees                          *)
(* ------------------------------------------------------------------ *)

(** NSModel::TreeTypes; also stands for the TreeType template argument. *)
Inductive TreeTypes : Type :=
| KD_TREE | COVER_TREE | R_TREE | R_STAR_TREE | BALL_TREE | X_TREE.

(** A NeighborSearch object: the members the wrappers read and write,
    and the rest of it. *)
Record NeighborSearch (Rest : Type) : Type := mkNS {
  naive : bool;
  singleMode : bool;
  treeOwner : bool;
  oldFromNewReferences : list nat;
  ns_rest : Rest;
}.
Arguments mkNS {Rest}.
Arguments naive {Rest}.
Arguments singleMode {Rest}.
Arguments treeOwner {Rest}.
Arguments oldFromNewReferences {Rest}.
Arguments ns_rest {Rest}.

Definition set_treeOwner {R} (b : bool) (n : NeighborSearch R) :=
  mkNS (naive n) (singleMode n) b (oldFromNewReferences n) (ns_rest n).
Definition set_oldFromNewReferences {R} (v : list nat) (n : NeighborSearch R) :=
  mkNS (naive n) (singleMode n) (treeOwner n) v (ns_rest n).

(** The code outside these files.  A method of NeighborSearch works on the
    object and on the matrices it is handed by reference. *)
Class NeighborSearchLib : Type := {
  Tree : Type;
  NSRest : Type;
  (* Tree(data, oldFromNew, leafSize): the tree and the filled oldFromNew *)
  build_tree : TreeTypes -> mat -> nat -> Tree * list nat;
  (* NeighborSearch(naive, singleMode) *)
  ns_new : TreeTypes -> bool -> bool -> NeighborSearch NSRest;
  (* ns.Train(Tree* ) and ns.Train(MatType&&) *)
  ns_Train_tree : TreeTypes -> Tree ->
    NeighborSearch NSRest -> result unit * NeighborSearch NSRest;
  ns_Train_mat : TreeTypes -> mat ->
    NeighborSearch NSRest -> result unit * NeighborSearch NSRest;
  (* ns.Search(querySet, k, neighbors, distances), ns.Search(queryTree, ...)
     and ns.Search(k, neighbors, distances) *)
  ns_Search_mat : TreeTypes -> mat -> nat ->
    NeighborSearch NSRest * umat * mat ->
    result unit * (NeighborSearch NSRest * umat * mat);
  ns_Search_tree : TreeTypes -> Tree -> nat ->
    NeighborSearch NSRest * umat * mat ->
    result unit * (NeighborSearch NSRest * umat * mat);
  ns_Search_self : TreeTypes -> nat ->
    NeighborSearch NSRest * umat * mat ->
    result unit * (NeighborSearch NSRest * umat * mat);
  (* ns.ReferenceSet() *)
  ns_ReferenceSet : TreeTypes -> NeighborSearch NSRest -> mat;
}.

(** A call into that code, as the log keeps it. *)
Inductive Call `{NeighborSearchLib} : Type :=
| TreeBuilt (tt : TreeTypes) (data : mat) (leafSize : nat)
| NsTrainTree (tt : TreeTypes) (t : Tree)
| NsTrainMat (tt : TreeTypes) (data : mat)
| NsSearchMat (tt : TreeTypes) (querySet : mat) (k : nat)
| NsSearchTree (tt : TreeTypes) (t : Tree) (k : nat)
| NsSearchSelf (tt : TreeTypes) (k : nat).

(** How an argument expression binds to the two tree constructors
    [Tree(const MatType&, ...)] and [Tree(MatType&&, ...)]. *)
Inductive constness : Type := Const | NonConst.

(** [std::move(x)]: an rvalue of the type of [x].  A non-const rvalue picks
    the MatType&& constructor, which takes the matrix away from [x]; a const
    rvalue only binds to const MatType&, and [x] is copied. *)
Definition after_move (c : constness) (x : mat) : mat :=
  match c with
  | Const => x
  | NonConst => empty_mat
  end.

(* ------------------------------------------------------------------ *)
(** * The archive library                                              *)
(* ------------------------------------------------------------------ *)

(** [ar & data::CreateNVP(x, name)] for a member of type [A], as the archive
    library outside provides it: saving hands the library the value, loading
    gives back what the archive holds under the name.  Either may fail. *)
Class Archiver (Archive A : Type) : Type := {
  save_nvp : string -> A -> Archive -> result unit * Archive;
  load_nvp : string -> Archive -> result A * Archive;
}.

(** A call into the archive library, which does not touch the store. *)
Definition library {S A Archive} (r : result A * Archive) : M S (A * Archive) :=
  fun s =>
    match r with
    | (Ret x, ar) => (Ret (x, ar), s)
    | (Throw e, _) => (Throw e, s)
    | (Undefined, _) => (Undefined, s)
    | (OutOfFuel, _) => (OutOfFuel, s)
    end.

(* ------------------------------------------------------------------ *)
(** * NeighborSearchLeaf (neighbor_search_leaf_impl.hpp)               *)
(* ------------------------------------------------------------------ *)

Module NeighborSearchLeaf.
Section Leaf.
Context `{Arma : Armadillo} `{Lib : NeighborSearchLib}.
(** The TreeType template argument. *)
Variable TreeType : TreeTypes.

(** The data members. *)
Record t : Type := mk { leafSize : nat; ns : NeighborSearch NSRest }.

(** NeighborSearchLeaf(naive, singleMode, leafSize). *)
Definition new (naive singleMode : bool) (leafSize : nat) : t :=
  mk leafSize (ns_new TreeType naive singleMode).

(** What Train works on: the object, the matrix behind its MatType&&
    parameter, and the log. *)
Record train_store : Type := mkTrain {
  tr_this : t;
  tr_referenceSet : mat;
  tr_calls : list Call;
}.

(** What the Search overloads work on: the object, the matrices behind the
    reference parameters, and the log. *)
Record search_store : Type := mkSearch {
  this : t;
  querySet : mat;
  neighbors : umat;
  distances : mat;
  calls : list Call;
}.

Definition set_neighbors (m : umat) (s : search_store) : search_store :=
  mkSearch (this s) (querySet s) m (distances s) (calls s).
Definition set_distances (m : mat) (s : search_store) : search_store :=
  mkSearch (this s) (querySet s) (neighbors s) m (calls s).

(** [Tree* tree = new Tree(std::move(referenceSet), oldFromNewRef, leafSize)]
    in Train: referenceSet is a MatType&&, the move takes the matrix. *)
Definition new_referenceTree : M train_store (Tree * list nat) := fun s =>
  let data := tr_referenceSet s in
  let leaf := leafSize (tr_this s) in
  (Ret (build_tree TreeType data leaf),
   mkTrain (tr_this s) (after_move NonConst data)
           (tr_calls s ++ [TreeBuilt TreeType data leaf])).

(** [ns.Train(tree)]. *)
Definition ns_Train_with_tree (tree : Tree) : M train_store unit := fun s =>
  let '(r, ns') := ns_Train_tree TreeType tree (ns (tr_this s)) in
  (r, mkTrain (mk (leafSize (tr_this s)) ns') (tr_referenceSet s)
              (tr_calls s ++ [NsTrainTree TreeType tree])).

(** [ns.Train(std::move(referenceSet))]. *)
Definition ns_Train_with_set : M train_store unit := fun s =>
  let data := tr_referenceSet s in
  let '(r, ns') := ns_Train_mat TreeType data (ns (tr_this s)) in
  (r, mkTrain (mk (leafSize (tr_this s)) ns') (after_move NonConst data)
              (tr_calls s ++ [NsTrainMat TreeType data])).

(** An assignment to a member of [ns]. *)
Definition assign_ns (f : NeighborSearch NSRest -> NeighborSearch NSRest)
  : M train_store unit :=
  modify (fun s => mkTrain (mk (leafSize (tr_this s)) (f (ns (tr_this s))))
                           (tr_referenceSet s) (tr_calls s)).

(** NeighborSearchLeaf::Train(MatType&& referenceSet). *)
Definition Train : M train_store unit :=
  let* l := gets tr_this in
  if negb (naive (ns l)) then
    let* '(tree, oldFromNewRef) := new_referenceTree in
    let* _ := ns_Train_with_tree tree in
    (* Give the model ownership of the tree and the mappings. *)
    let* _ := assign_ns (set_treeOwner true) in
    assign_ns (set_oldFromNewReferences oldFromNewRef)
  else
    ns_Train_with_set.

(** [Tree queryTree(std::move(querySet), oldFromNewQueries, leafSize)] in
    Search: querySet is a const MatType&. *)
Definition new_queryTree : M search_store (Tree * list nat) := fun s =>
  let data := querySet s in
  let leaf := leafSize (this s) in
  (Ret (build_tree TreeType data leaf),
   mkSearch (this s) (after_move Const data) (neighbors s) (distances s)
            (calls s ++ [TreeBuilt TreeType data leaf])).

(** [ns.Search(&queryTree, k, neighborsOut, distancesOut)] on two local,
    default-constructed matrices. *)
Definition ns_Search_with_tree (queryTree : Tree) (k : nat)
  : M search_store (umat * mat) := fun s =>
  let '(r, (ns', neighborsOut, distancesOut)) :=
    ns_Search_tree TreeType queryTree k (ns (this s), empty_mat, empty_mat) in
  let s' := mkSearch (mk (leafSize (this s)) ns') (querySet s) (neighbors s)
                     (distances s)
                     (calls s ++ [NsSearchTree TreeType queryTree k]) in
  (match r with
   | Ret _ => Ret (neighborsOut, distancesOut)
   | Throw e => Throw e
   | Undefined => Undefined
   | OutOfFuel => OutOfFuel
   end, s').

(** [ns.Search(querySet, k, neighbors, distances)]. *)
Definition ns_Search_with_set (k : nat) : M search_store unit := fun s =>
  let '(r, (ns', neighbors', distances')) :=
    ns_Search_mat TreeType (querySet s) k
                  (ns (this s), neighbors s, distances s) in
  (r, mkSearch (mk (leafSize (this s)) ns') (querySet s) neighbors' distances'
               (calls s ++ [NsSearchMat TreeType (querySet s) k])).

(** [ns.Search(k, neighbors, distances)]. *)
Definition ns_Search_references (k : nat) : M search_store unit := fun s =>
  let '(r, (ns', neighbors', distances')) :=
    ns_Search_self TreeType k (ns (this s), neighbors s, distances s) in
  (r, mkSearch (mk (leafSize (this s)) ns') (querySet s) neighbors' distances'
               (calls s ++ [NsSearchSelf TreeType k])).

(** [neighbors.col(j) = c] and [distances.col(j) = c]. *)
Definition assign_neighbors_col (j : nat) (c : list nat) : M search_store unit :=
  let* m := gets neighbors in
  let* m' := lift (set_col m j c) in
  modify (set_neighbors m').
Definition assign_distances_col (j : nat) (c : list float) : M search_store unit :=
  let* m := gets distances in
  let* m' := lift (set_col m j c) in
  modify (set_distances m').

(** The loop [for (size_t i = 0; i < neighborsOut.n_cols; ++i)], entered
    at [i] with [todo] iterations to go. *)
Fixpoint unmap (oldFromNewQueries : list nat) (neighborsOut : umat)
    (distancesOut : mat) (i todo : nat) : M search_store unit :=
  match todo with
  | 0 => ret tt
  | S todo' =>
    let* j := lift (vector_at oldFromNewQueries i) in
    let* c := lift (col neighborsOut i) in
    let* _ := assign_neighbors_col j c in
    let* j' := lift (vector_at oldFromNewQueries i) in
    let* d := lift (col distancesOut i) in
    let* _ := assign_distances_col j' d in
    unmap oldFromNewQueries neighborsOut distancesOut (S i) todo'
  end.

(** NeighborSearchLeaf::Search(querySet, k, neighbors, distances). *)
Definition Search (k : nat) : M search_store unit :=
  let* l := gets this in
  if negb (naive (ns l)) && negb (singleMode (ns l)) then
    let* '(queryTree, oldFromNewQueries) := new_queryTree in
    let* '(neighborsOut, distancesOut) := ns_Search_with_tree queryTree k in
    (* Unmap the query points. *)
    let* _ := modify (fun s => set_distances
                (set_size uninit_d (n_rows distancesOut) (n_cols distancesOut)
                          (distances s)) s) in
    let* _ := modify (fun s => set_neighbors
                (set_size uninit_u (n_rows neighborsOut) (n_cols neighborsOut)
                          (neighbors s)) s) in
    unmap oldFromNewQueries neighborsOut distancesOut 0 (n_cols neighborsOut)
  else
    ns_Search_with_set k.

(** NeighborSearchLeaf::Search(k, neighbors, distances). *)
Definition Search_self (k : nat) : M search_store unit :=
  ns_Search_references k.

End Leaf.
End NeighborSearchLeaf.

(* ------------------------------------------------------------------ *)
(** * SpillSearch (spill_search_impl.hpp)                              *)
(* ------------------------------------------------------------------ *)

(** The code outside spill_search_impl.hpp: the spill tree and the
    NeighborSearch instance over it. *)
Class SpillLib : Type := {
  SpillTree : Type;
  SpillRest : Type;
  MetricType : Type;
  (* Tree(data, tau) *)
  build_spill_tree : mat -> float -> SpillTree;
  (* neighborSearch(naive, singleMode, epsilon, metric) *)
  sp_new : bool -> bool -> float -> MetricType -> NeighborSearch SpillRest;
  (* neighborSearch(singleMode, epsilon, metric) *)
  sp_new_for_tree : bool -> float -> MetricType -> NeighborSearch SpillRest;
  sp_Train_tree : SpillTree ->
    NeighborSearch SpillRest -> result unit * NeighborSearch SpillRest;
  sp_Train_mat : mat ->
    NeighborSearch SpillRest -> result unit * NeighborSearch SpillRest;
  sp_Search_mat : mat -> nat ->
    NeighborSearch SpillRest * umat * mat ->
    result unit * (NeighborSearch SpillRest * umat * mat);
  (* Search(queryTree, k, neighbors, distances, sameSet = false) *)
  sp_Search_tree : SpillTree -> nat -> bool ->
    NeighborSearch SpillRest * umat * mat ->
    result unit * (NeighborSearch SpillRest * umat * mat);
  sp_Search_self : nat ->
    NeighborSearch SpillRest * umat * mat ->
    result unit * (NeighborSearch SpillRest * umat * mat);
  sp_ReferenceSet : NeighborSearch SpillRest -> mat;
}.

Inductive SpillCall `{SpillLib} : Type :=
| SpillTreeBuilt (data : mat) (tau : float)
| SpTrainTree (t : SpillTree)
| SpTrainMat (data : mat)
| SpSearchMat (querySet : mat) (k : nat)
| SpSearchTree (t : SpillTree) (k : nat) (sameSet : bool)
| SpSearchSelf (k : nat).

(** The overlap a logged call built a tree with, if it built one. *)
Definition tau_of_call `{SpillLib} (c : SpillCall) : option float :=
  match c with SpillTreeBuilt _ tau => Some tau | _ => None end.

Module SpillSearch.
Section Spill.
Context `{Lib : SpillLib}.

(** The data members. *)
Record t : Type := mk { neighborSearch : NeighborSearch SpillRest; tau : float }.

(** Naive(), SingleMode() and ReferenceSet() forward to the engine. *)
Definition Naive (o : t) : bool := naive (neighborSearch o).
Definition SingleMode (o : t) : bool := singleMode (neighborSearch o).
Definition ReferenceSet (o : t) : mat := sp_ReferenceSet (neighborSearch o).

(** What a method works on: the object, the matrices behind its reference
    parameters (the one passed in, the two passed out) and the log. *)
Record store : Type := mkStore {
  this : t;
  data : mat;
  neighbors : umat;
  distances : mat;
  calls : list SpillCall;
}.

Definition log (c : SpillCall) : M store unit :=
  modify (fun s => mkStore (this s) (data s) (neighbors s) (distances s)
                           (calls s ++ [c])).

(** A call of a neighborSearch method that touches the object only. *)
Definition on_engine
    (f : NeighborSearch SpillRest -> result unit * NeighborSearch SpillRest)
  : M store unit := fun s =>
  let '(r, ns') := f (neighborSearch (this s)) in
  (r, mkStore (mk ns' (tau (this s))) (data s) (neighbors s) (distances s)
              (calls s)).

(** A call of a neighborSearch method that also writes the two output
    matrices. *)
Definition on_engine_out
    (f : NeighborSearch SpillRest * umat * mat ->
         result unit * (NeighborSearch SpillRest * umat * mat))
  : M store unit := fun s =>
  let '(r, (ns', neighbors', distances')) :=
    f (neighborSearch (this s), neighbors s, distances s) in
  (r, mkStore (mk ns' (tau (this s))) (data s) neighbors' distances' (calls s)).

(** [Tree(x, tau)] on a matrix [x]; [moved] says whether [x] is
    [std::move] of the MatType&& parameter. *)
Definition new_Tree (x : mat) (tau : float) (moved : bool) : M store SpillTree :=
  let* _ := log (SpillTreeBuilt x tau) in
  let* _ := modify (fun s =>
              mkStore (this s) (if moved then after_move NonConst (data s)
                                else data s)
                      (neighbors s) (distances s) (calls s)) in
  ret (build_spill_tree x tau).

(** Train(const MatType& referenceSet). *)
Definition Train_copy : M store unit :=
  let* o := gets this in
  let* referenceSet := gets data in
  if Naive o then
    let* _ := log (SpTrainMat referenceSet) in
    on_engine (sp_Train_mat referenceSet)
  else
    (* Build reference tree with proper value for tau. *)
    let* tree := new_Tree referenceSet (tau o) false in
    let* _ := log (SpTrainTree tree) in
    let* _ := on_engine (sp_Train_tree tree) in
    (* Give the model ownership of the tree. *)
    on_engine (fun n => (Ret tt, set_treeOwner true n)).

(** Train(MatType&& referenceSetIn). *)
Definition Train_move : M store unit :=
  let* o := gets this in
  let* referenceSetIn := gets data in
  if Naive o then
    let* _ := log (SpTrainMat referenceSetIn) in
    let* _ := modify (fun s => mkStore (this s) (after_move NonConst (data s))
                                 (neighbors s) (distances s) (calls s)) in
    on_engine (sp_Train_mat referenceSetIn)
  else
    let* tree := new_Tree referenceSetIn (tau o) true in
    let* _ := log (SpTrainTree tree) in
    let* _ := on_engine (sp_Train_tree tree) in
    on_engine (fun n => (Ret tt, set_treeOwner true n)).

(** Train(Tree* referenceTree). *)
Definition Train_tree (referenceTree : SpillTree) : M store unit :=
  let* _ := log (SpTrainTree referenceTree) in
  on_engine (sp_Train_tree referenceTree).

(** The body every constructor starts with. *)
Definition check_tau : M store unit :=
  let* o := gets this in
  if (tau o <? 0)%float then throw InvalidParameter else ret tt.

(** The four constructors.  Each starts from the members as the
    initialiser list leaves them and runs the constructor body; the
    object exists when the body returns. *)
Definition new_from_set (referenceSetIn : mat) (naive singleMode : bool)
    (tau epsilon : float) (metric : MetricType) : result unit * store :=
  (let* _ := check_tau in Train_copy)
    (mkStore (mk (sp_new naive singleMode epsilon metric) tau)
             referenceSetIn empty_mat empty_mat []).

Definition new_from_moved_set (referenceSetIn : mat) (naive singleMode : bool)
    (tau epsilon : float) (metric : MetricType) : result unit * store :=
  (let* _ := check_tau in Train_move)
    (mkStore (mk (sp_new naive singleMode epsilon metric) tau)
             referenceSetIn empty_mat empty_mat []).

Definition new_from_tree (referenceTree : SpillTree) (singleMode : bool)
    (tau epsilon : float) (metric : MetricType) : result unit * store :=
  (let* _ := check_tau in Train_tree referenceTree)
    (mkStore (mk (sp_new_for_tree singleMode epsilon metric) tau)
             empty_mat empty_mat empty_mat []).

Definition new_empty (naive singleMode : bool)
    (tau epsilon : float) (metric : MetricType) : result unit * store :=
  check_tau
    (mkStore (mk (sp_new naive singleMode epsilon metric) tau)
             empty_mat empty_mat empty_mat []).

(** Search(querySet, k, neighbors, distances). *)
Definition Search (k : nat) : M store unit :=
  let* o := gets this in
  let* querySet := gets data in
  if Naive o || SingleMode o then
    let* _ := log (SpSearchMat querySet k) in
    on_engine_out (sp_Search_mat querySet k)
  else
    (* For Dual Tree Search on SpillTrees, the queryTree must be built
       with non overlapping (tau = 0). *)
    let* queryTree := new_Tree querySet 0%float false in
    let* _ := log (SpSearchTree queryTree k false) in
    on_engine_out (sp_Search_tree queryTree k false).

(** Search(queryTree, k, neighbors, distances). *)
Definition Search_tree (queryTree : SpillTree) (k : nat) : M store unit :=
  let* _ := log (SpSearchTree queryTree k false) in
  on_engine_out (sp_Search_tree queryTree k false).

(** Search(k, neighbors, distances). *)
Definition Search_self (k : nat) : M store unit :=
  let* o := gets this in
  if (tau o =? 0)%float || Naive o || SingleMode o then
    let* _ := log (SpSearchSelf k) in
    on_engine_out (sp_Search_self k)
  else
    (* If the referenceTree was built with a non-zero value for tau, we
       need to build a new queryTree. *)
    let* queryTree := new_Tree (ReferenceSet o) 0%float false in
    let* _ := log (SpSearchTree queryTree k true) in
    on_engine_out (sp_Search_tree queryTree k true).

Context {Archive : Type}.
Context `{ArEngine : !Archiver Archive (NeighborSearch SpillRest)}.
Context `{ArDouble : !Archiver Archive float}.

(** [ar & data::CreateNVP(x, name)] on the member that [get] reads and [set]
    assigns: saving leaves the member, loading assigns it. *)
Definition archive_member {A} `{!Archiver Archive A} (loading : bool)
    (name : string) (get : t -> A) (set : A -> t -> t) (ar : Archive)
  : M store Archive :=
  if loading then
    let* '(x, ar') := library (load_nvp name ar) in
    let* _ := modify (fun s => mkStore (set x (this s)) (data s) (neighbors s)
                                        (distances s) (calls s)) in
    ret ar'
  else
    let* o := gets this in
    let* '(_, ar') := library (save_nvp name (get o) ar) in
    ret ar'.

(** SpillSearch::Serialize(ar, version); [loading] is Archive::is_loading. *)
Definition Serialize (loading : bool) (ar : Archive) : M store Archive :=
  let* ar1 := archive_member loading "neighborSearch" neighborSearch
                (fun n o => mk n (tau o)) ar in
  archive_member loading "tau" tau (fun x o => mk (neighborSearch o) x) ar1.

End Spill.
End SpillSearch.

(* ------------------------------------------------------------------ *)
(** * NSModel (ns_model.hpp, ns_model_impl.hpp)                        *)
(* ------------------------------------------------------------------ *)

(** [M(i, j)] with Armadillo's bounds check. *)
Definition at_ {A} (m : Mat A) (i j : nat) : result A :=
  match cols m !! j with
  | Some c =>
    match c !! i with
    | Some x => Ret x
    | None => Throw (logic_error "Mat::operator(): index out of bounds")
    end
  | None => Throw (logic_error "Mat::operator(): index out of bounds")
  end.

(** arma::diagmat of a vector. *)
Definition diagmat (v : list float) : mat :=
  mkMat (length v)
        (imap (fun j x => imap (fun i _ => if decide (i = j) then x else 0%float) v) v).

Module NSModel.
Section Model.
Context `{Arma : Armadillo} `{Lib : NeighborSearchLib}.

(** An object behind a NeighborSearchGen<arma::mat>* : one of the two
    class templates at one tree type. *)
Inductive Engine : Type :=
| NSLeaf (ty : TreeTypes) (l : NeighborSearchLeaf.t)
| NSType (ty : TreeTypes) (n : NeighborSearch NSRest).

Inductive EngineClass : Type := IsNSLeaf | IsNSType.

Definition class_of (e : Engine) : EngineClass * TreeTypes :=
  match e with
  | NSLeaf ty _ => (IsNSLeaf, ty)
  | NSType ty _ => (IsNSType, ty)
  end.

(** The class the switch of BuildModel and of Serialize pairs with a
    discriminant. *)
Definition class_for (ty : TreeTypes) : EngineClass * TreeTypes :=
  match ty with
  | KD_TREE => (IsNSLeaf, KD_TREE)
  | COVER_TREE => (IsNSType, COVER_TREE)
  | R_TREE => (IsNSType, R_TREE)
  | R_STAR_TREE => (IsNSType, R_STAR_TREE)
  | BALL_TREE => (IsNSLeaf, BALL_TREE)
  | X_TREE => (IsNSType, X_TREE)
  end.

(** The data members; [nSearch] is an address or NULL. *)
Record t : Type := mk {
  treeType : TreeTypes;
  randomBasis : bool;
  q : mat;
  nSearch : option nat;
}.

(** The free store keeps a record of what is allocated and released. *)
Inductive AllocEvent : Type := New (p : nat) | Delete (p : nat).

(** What a method works on: the model, the matrices behind its reference
    parameters, the free store, the position in the stream of random
    draws, and the two logs. *)
Record store : Type := mkStore {
  this : t;
  data : mat;
  neighbors : umat;
  distances : mat;
  heap : gmap nat Engine;
  next : nat;
  draws : nat;
  allocs : list AllocEvent;
  calls : list Call;
}.

Definition set_this (o : t) (s : store) : store :=
  mkStore o (data s) (neighbors s) (distances s) (heap s) (next s) (draws s)
          (allocs s) (calls s).
Definition set_data (m : mat) (s : store) : store :=
  mkStore (this s) m (neighbors s) (distances s) (heap s) (next s) (draws s)
          (allocs s) (calls s).
Definition set_q (m : mat) (s : store) : store :=
  set_this (mk (treeType (this s)) (randomBasis (this s)) m (nSearch (this s))) s.
Definition set_nSearch (p : option nat) (s : store) : store :=
  set_this (mk (treeType (this s)) (randomBasis (this s)) (q (this s)) p) s.

(** NSModel(treeType, randomBasis). *)
Definition new (treeType : TreeTypes) (randomBasis : bool) : t :=
  mk treeType randomBasis empty_mat None.

(** [delete p]. *)
Definition delete_ (p : nat) : M store unit :=
  modify (fun s =>
    mkStore (this s) (data s) (neighbors s) (distances s)
            (delete p (heap s)) (next s) (draws s)
            (allocs s ++ [Delete p]) (calls s)).

(** [new T(...)]: the object is placed at an address never used before. *)
Definition new_ (e : Engine) : M store nat := fun s =>
  (Ret (next s),
   mkStore (this s) (data s) (neighbors s) (distances s)
           (<[next s := e]> (heap s)) (S (next s)) (draws s)
           (allocs s ++ [New (next s)]) (calls s)).

(** [if (nSearch) delete nSearch;] *)
Definition delete_nSearch : M store unit :=
  let* o := gets this in
  match nSearch o with
  | Some p => delete_ p
  | None => ret tt
  end.

(** ~NSModel(). *)
Definition destroy : M store unit := delete_nSearch.

(** The object [nSearch] points to. *)
Definition deref (p : nat) : M store Engine :=
  let* h := gets heap in
  match h !! p with
  | Some e => ret e
  | None => lift Undefined
  end.

(** The virtual calls through [nSearch]. *)
Definition virtual_Train (p : nat) : M store unit :=
  let* e := deref p in
  fun s =>
    match e with
    | NSLeaf ty l =>
      let '(r, ts) := NeighborSearchLeaf.Train ty
          (NeighborSearchLeaf.mkTrain l (data s) (calls s)) in
      (r, mkStore (this s) (NeighborSearchLeaf.tr_referenceSet ts)
                  (neighbors s) (distances s)
                  (<[p := NSLeaf ty (NeighborSearchLeaf.tr_this ts)]> (heap s))
                  (next s) (draws s) (allocs s)
                  (NeighborSearchLeaf.tr_calls ts))
    | NSType ty n =>
      let '(r, n') := ns_Train_mat ty (data s) n in
      (r, mkStore (this s) (after_move NonConst (data s))
                  (neighbors s) (distances s)
                  (<[p := NSType ty n']> (heap s))
                  (next s) (draws s) (allocs s)
                  (calls s ++ [NsTrainMat ty (data s)]))
    end.

Definition on_leaf (p : nat) (ty : TreeTypes) (l : NeighborSearchLeaf.t)
    (f : M NeighborSearchLeaf.search_store unit) : M store unit := fun s =>
  let '(r, ss) := f (NeighborSearchLeaf.mkSearch l (data s) (neighbors s)
                       (distances s) (calls s)) in
  (r, mkStore (this s) (NeighborSearchLeaf.querySet ss)
              (NeighborSearchLeaf.neighbors ss) (NeighborSearchLeaf.distances ss)
              (<[p := NSLeaf ty (NeighborSearchLeaf.this ss)]> (heap s))
              (next s) (draws s) (allocs s) (NeighborSearchLeaf.calls ss)).

Definition on_plain (p : nat) (ty : TreeTypes) (n : NeighborSearch NSRest)
    (f : NeighborSearch NSRest * umat * mat ->
         result unit * (NeighborSearch NSRest * umat * mat))
    (c : Call) : M store unit := fun s =>
  let '(r, (n', neighbors', distances')) := f (n, neighbors s, distances s) in
  (r, mkStore (this s) (data s) neighbors' distances'
              (<[p := NSType ty n']> (heap s))
              (next s) (draws s) (allocs s) (calls s ++ [c])).

Definition virtual_Search (p : nat) (k : nat) : M store unit :=
  let* e := deref p in
  let* querySet := gets data in
  match e with
  | NSLeaf ty l => on_leaf p ty l (NeighborSearchLeaf.Search ty k)
  | NSType ty n =>
    on_plain p ty n (ns_Search_mat ty querySet k) (NsSearchMat ty querySet k)
  end.

Definition virtual_Search_self (p : nat) (k : nat) : M store unit :=
  let* e := deref p in
  match e with
  | NSLeaf ty l => on_leaf p ty l (NeighborSearchLeaf.Search_self ty k)
  | NSType ty n => on_plain p ty n (ns_Search_self ty k) (NsSearchSelf ty k)
  end.

Definition engine_ns (e : Engine) : TreeTypes * NeighborSearch NSRest :=
  match e with
  | NSLeaf ty l => (ty, NeighborSearchLeaf.ns l)
  | NSType ty n => (ty, n)
  end.

Definition virtual_ReferenceSet (p : nat) : M store mat :=
  let* e := deref p in
  ret (ns_ReferenceSet (fst (engine_ns e)) (snd (engine_ns e))).
Definition virtual_Naive (p : nat) : M store bool :=
  let* e := deref p in ret (naive (snd (engine_ns e))).
Definition virtual_SingleMode (p : nat) : M store bool :=
  let* e := deref p in ret (singleMode (snd (engine_ns e))).

(** The sign the loop over the diagonal of [r] stores in rDiag(i). *)
Definition sign (x : float) : float :=
  if (x <? 0)%float then (-1)%float
  else if (0 <? x)%float then 1%float
  else 0%float.

(** [for (size_t i = 0; i < rDiag.n_elem; ++i)], entered at [i] with
    [todo] iterations to go; the result is rDiag from [i] on. *)
Fixpoint rDiag_from (r : mat) (i todo : nat) : result (list float) :=
  match todo with
  | 0 => Ret []
  | S todo' =>
    match at_ r i i with
    | Ret x =>
      match rDiag_from r (S i) todo' with
      | Ret v => Ret (sign x :: v)
      | other => other
      end
    | Throw e => Throw e
    | Undefined => Undefined
    | OutOfFuel => OutOfFuel
    end
  end.

(** [arma::randn<arma::mat>(d, d)]: the next draw of the stream. *)
Definition next_randn (d : nat) : M store mat := fun s =>
  (Ret (randn (draws s) d),
   mkStore (this s) (data s) (neighbors s) (distances s) (heap s) (next s)
           (S (draws s)) (allocs s) (calls s)).

(** The [while (true)] loop of BuildModel; [fuel] bounds the number of
    iterations the model follows.  A failed [qr] leaves [q] reset. *)
Fixpoint random_basis_loop (fuel : nat) (d : nat) : M store unit :=
  match fuel with
  | 0 => lift OutOfFuel
  | S fuel' =>
    let* x := next_randn d in
    match qr x with
    | Some (q0, r) =>
      let* _ := modify (set_q q0) in
      let* rDiag := lift (rDiag_from r 0 (n_rows r)) in
      let* b := lift (times q0 (diagmat rDiag)) in
      let* _ := modify (set_q b) in
      (* Check if the determinant is positive. *)
      let* o := gets this in
      if (0 <=? det (q o))%float then ret tt
      else random_basis_loop fuel' d
    | None =>
      let* _ := modify (set_q empty_mat) in
      random_basis_loop fuel' d
    end
  end.

(** NSModel::BuildModel(referenceSet, leafSize, naive, singleMode). *)
Definition BuildModel (fuel : nat) (leafSize : nat) (naive singleMode : bool)
  : M store unit :=
  let* o := gets this in
  (* Initialize random basis if necessary. *)
  let* _ :=
    (if randomBasis o then
       let* referenceSet := gets data in
       let* _ := random_basis_loop fuel (n_rows referenceSet) in
       let* o' := gets this in
       let* mapped := lift (times (q o') referenceSet) in
       modify (set_data mapped)
     else ret tt) in
  let* _ := delete_nSearch in
  let* p :=
    (match treeType o with
     | KD_TREE =>
       new_ (NSLeaf KD_TREE (NeighborSearchLeaf.new KD_TREE naive singleMode leafSize))
     | COVER_TREE => new_ (NSType COVER_TREE (ns_new COVER_TREE naive singleMode))
     | R_TREE => new_ (NSType R_TREE (ns_new R_TREE naive singleMode))
     | R_STAR_TREE => new_ (NSType R_STAR_TREE (ns_new R_STAR_TREE naive singleMode))
     | BALL_TREE =>
       new_ (NSLeaf BALL_TREE (NeighborSearchLeaf.new BALL_TREE naive singleMode leafSize))
     | X_TREE => new_ (NSType X_TREE (ns_new X_TREE naive singleMode))
     end) in
  let* _ := modify (set_nSearch (Some p)) in
  let* o'' := gets this in
  match nSearch o'' with
  | None => throw CouldNotCreate
  | Some p' => virtual_Train p'
  end.

(** NSModel::Search(querySet, k, neighbors, distances). *)
Definition Search (k : nat) : M store unit :=
  let* o := gets this in
  (* We may need to map the query set randomly. *)
  let* _ :=
    (if randomBasis o then
       let* querySet := gets data in
       let* mapped := lift (times (q o) querySet) in
       modify (set_data mapped)
     else ret tt) in
  match nSearch o with
  | Some p => virtual_Search p k
  | None => throw ModelNotInitialized
  end.

(** NSModel::Search(k, neighbors, distances). *)
Definition Search_self (k : nat) : M store unit :=
  let* o := gets this in
  match nSearch o with
  | Some p => virtual_Search_self p k
  | None => throw ModelNotInitialized
  end.

(** NSModel::Dataset(). *)
Definition Dataset : M store mat :=
  let* o := gets this in
  match nSearch o with
  | Some p => virtual_ReferenceSet p
  | None => throw ModelNotInitialized
  end.

(** NSModel::Naive() and NSModel::SingleMode(). *)
Definition Naive : M store bool :=
  let* o := gets this in
  match nSearch o with
  | Some p => virtual_Naive p
  | None => throw ModelNotInitialized
  end.

Definition SingleMode : M store bool :=
  let* o := gets this in
  match nSearch o with
  | Some p => virtual_SingleMode p
  | None => throw ModelNotInitialized
  end.

(** ** Serialization *)

(** The SortPolicy template argument, and NSModelName<SortPolicy>::Name(). *)
Inductive SortPolicy : Type :=
| NearestNeighborSort | FurthestNeighborSort | OtherSort.

Definition Name (sp : SortPolicy) : string :=
  match sp with
  | NearestNeighborSort => "nearest_neighbor_search_model"
  | FurthestNeighborSort => "furthest_neighbor_search_model"
  | OtherSort => "neighbor_search_model"
  end.

(** [ar & data::CreateNVP(childPtr, name)] for the engine pointer, as the
    archive library provides it for a pointer to the class [target].  Saving
    hands the library the object the pointer leads to ([None]: a null
    pointer); loading gives back the object the library has made, or none
    for a null pointer.  An object loaded through a pointer to a class is an
    object of that class. *)
Class PointerArchiver (Archive : Type) : Type := {
  save_pointer : EngineClass * TreeTypes -> string -> option Engine ->
                 Archive -> result unit * Archive;
  load_pointer : EngineClass * TreeTypes -> string ->
                 Archive -> result (option Engine) * Archive;
  load_pointer_class : forall target name ar e ar',
    load_pointer target name ar = (Ret (Some e), ar') -> class_of e = target;
}.

Context {Archive : Type}.
Context `{ArTree : !Archiver Archive TreeTypes}.
Context `{ArBool : !Archiver Archive bool}.
Context `{ArMat : !Archiver Archive mat}.
Context `{ArPtr : !PointerArchiver Archive}.

Definition set_treeType (ty : TreeTypes) (s : store) : store :=
  set_this (mk ty (randomBasis (this s)) (q (this s)) (nSearch (this s))) s.
Definition set_randomBasis (b : bool) (s : store) : store :=
  set_this (mk (treeType (this s)) b (q (this s)) (nSearch (this s))) s.

(** [ar & data::CreateNVP(x, name)] on the member of the model that [get]
    reads and [set] assigns: saving leaves the member, loading assigns it. *)
Definition archive_member {A} `{!Archiver Archive A} (loading : bool)
    (name : string) (get : t -> A) (set : A -> store -> store) (ar : Archive)
  : M store Archive :=
  if loading then
    let* '(x, ar') := library (load_nvp name ar) in
    let* _ := modify (set x) in
    ret ar'
  else
    let* o := gets this in
    let* '(_, ar') := library (save_nvp name (get o) ar) in
    ret ar'.

(** A cast [(T * ) nSearch]: a C cast between pointer types gives the same address
    and does not look at the object. *)
Definition c_cast (target : EngineClass * TreeTypes) (p : option nat)
  : option nat := p.

(** [ar & data::CreateNVP(childPtr, name)].  Saving archives the object the
    pointer leads to; loading puts the object the library has made at a new
    address and points [childPtr] at it. *)
Definition archive_pointer (loading : bool) (target : EngineClass * TreeTypes)
    (name : string) (childPtr : option nat) (ar : Archive)
  : M store (option nat * Archive) :=
  if loading then
    let* '(o, ar') := library (load_pointer target name ar) in
    match o with
    | Some e => let* p := new_ e in ret (Some p, ar')
    | None => ret (None, ar')
    end
  else
    let* h := gets heap in
    let* '(_, ar') :=
      library (save_pointer target name
                 (match childPtr with Some p => h !! p | None => None end) ar) in
    ret (childPtr, ar').

(** NSModel::Serialize(ar, version); [loading] is Archive::is_loading. *)
Definition Serialize (sp : SortPolicy) (loading : bool) (ar : Archive)
  : M store Archive :=
  let* ar1 := archive_member loading "treeType" treeType set_treeType ar in
  let* ar2 := archive_member loading "randomBasis" randomBasis set_randomBasis ar1 in
  let* ar3 := archive_member loading "q" q set_q ar2 in
  (* This should never happen, but just in case, be clean with memory. *)
  let* _ :=
    (if loading then
       let* _ := delete_nSearch in modify (set_nSearch None)
     else ret tt) in
  let name := Name sp in
  let* o' := gets this in
  (* every case of the switch: cast, archive the pointer, store it back *)
  let target := class_for (treeType o') in
  let childPtr := c_cast target (nSearch o') in
  let* '(childPtr', ar4) := archive_pointer loading target name childPtr ar3 in
  let* _ := modify (set_nSearch childPtr') in
  ret ar4.

(** ** The life of a model *)

(** What a caller can do with a live model. *)
Inductive Op : Type :=
| DoBuildModel (fuel : nat) (referenceSet : mat) (leafSize : nat)
               (naive singleMode : bool)
| DoSearch (querySet : mat) (k : nat)
| DoSearch_self (k : nat)
| DoDataset
| DoNaive
| DoSingleMode.

(** A call starts with its own arguments in the reference parameters. *)
Definition with_args (m : mat) (s : store) : store :=
  mkStore (this s) m empty_mat empty_mat (heap s) (next s) (draws s)
          (allocs s) (calls s).

Definition forget {A} (c : M store A) : M store unit :=
  let* _ := c in ret tt.

Definition run_op (op : Op) (s : store) : result unit * store :=
  match op with
  | DoBuildModel fuel referenceSet leafSize naive singleMode =>
    BuildModel fuel leafSize naive singleMode (with_args referenceSet s)
  | DoSearch querySet k => Search k (with_args querySet s)
  | DoSearch_self k => Search_self k (with_args empty_mat s)
  | DoDataset => forget Dataset s
  | DoNaive => forget Naive s
  | DoSingleMode => forget SingleMode s
  end.

(** Control comes back to the caller, normally or with an exception. *)
Definition comes_back {A} (r : result A) : bool :=
  match r with
  | Ret _ | Throw _ => true
  | Undefined | OutOfFuel => false
  end.

(** The calls of [ops] in order, as long as they come back. *)
Fixpoint run_ops (ops : list Op) (s : store) : bool * store :=
  match ops with
  | [] => (true, s)
  | op :: ops' =>
    let '(r, s') := run_op op s in
    if comes_back r then run_ops ops' s' else (false, s')
  end.

Definition fresh_store (o : t) : store :=
  mkStore o empty_mat empty_mat empty_mat ∅ 0 0 [] [].

(** Construction, the calls of [ops], destruction.  The flag tells
    whether the destructor was reached. *)
Definition lifetime (treeType : TreeTypes) (randomBasis : bool)
    (ops : list Op) : bool * store :=
  let '(ok, s) := run_ops ops (fresh_store (new treeType randomBasis)) in
  if ok then (true, snd (destroy s)) else (false, s).

(** How often an address was allocated and released. *)
Definition is_New (p : nat) (e : AllocEvent) : bool :=
  match e with New p' => bool_decide (p' = p) | Delete _ => false end.
Definition is_Delete (p : nat) (e : AllocEvent) : bool :=
  match e with Delete p' => bool_decide (p' = p) | New _ => false end.
Definition times_allocated (p : nat) (l : list AllocEvent) : nat :=
  length (filter (fun e => is_New p e = true) l).
Definition times_released (p : nat) (l : list AllocEvent) : nat :=
  length (filter (fun e => is_Delete p e = true) l).

(** What one pass of the body of the [while (true)] loop leaves in [q] for
    the draw [x], and whether it leaves the loop. *)
Definition basis_of_draw (x : mat) : result (mat * bool) :=
  match qr x with
  | Some (q0, r) =>
    match rDiag_from r 0 (n_rows r) with
    | Ret rDiag =>
      match times q0 (diagmat rDiag) with
      | Ret b => Ret (b, (0 <=? det b)%float)
      | Throw e => Throw e
      | Undefined => Undefined
      | OutOfFuel => OutOfFuel
      end
    | Throw e => Throw e
    | Undefined => Undefined
    | OutOfFuel => OutOfFuel
    end
  | None => Ret (empty_mat, false)
  end.

(** The point set a logged call was handed. *)
Definition call_data (c : Call) : option mat :=
  match c with
  | TreeBuilt _ data _ => Some data
  | NsTrainMat _ data => Some data
  | NsSearchMat _ querySet _ => Some querySet
  | _ => None
  end.

(** The store with [b] in [q] and [n] more random draws taken. *)
Definition with_basis (b : mat) (n : nat) (s : store) : store :=
  mkStore (mk (treeType (this s)) (randomBasis (this s)) b (nSearch (this s)))
          (data s) (neighbors s) (distances s) (heap s) (next s)
          (draws s + n) (allocs s) (calls s).

(** BuildModel from [if (nSearch) delete nSearch;] on. *)
Definition BuildModel_engine (leafSize : nat) (naive singleMode : bool)
  : M store unit :=
  let* o := gets this in
  let* _ := delete_nSearch in
  let* p :=
    (match treeType o with
     | KD_TREE =>
       new_ (NSLeaf KD_TREE (NeighborSearchLeaf.new KD_TREE naive singleMode leafSize))
     | COVER_TREE => new_ (NSType COVER_TREE (ns_new COVER_TREE naive singleMode))
     | R_TREE => new_ (NSType R_TREE (ns_new R_TREE naive singleMode))
     | R_STAR_TREE => new_ (NSType R_STAR_TREE (ns_new R_STAR_TREE naive singleMode))
     | BALL_TREE =>
       new_ (NSLeaf BALL_TREE (NeighborSearchLeaf.new BALL_TREE naive singleMode leafSize))
     | X_TREE => new_ (NSType X_TREE (ns_new X_TREE naive singleMode))
     end) in
  let* _ := modify (set_nSearch (Some p)) in
  let* o'' := gets this in
  match nSearch o'' with
  | None => throw CouldNotCreate
  | Some p' => virtual_Train p'
  end.

(** The model and the free store agree: the engine the model points to is
    the one object in use, every address handed out so far was allocated
    once, and released once unless it is the engine in use. *)
Definition sound (s : store) : Prop :=
  dom (heap s)
    = (match nSearch (this s) with Some p => {[p]} | None => ∅ end : gset nat) /\
  (forall p, nSearch (this s) = Some p -> p < next s) /\
  (forall p, times_allocated p (allocs s)
             = if decide (p < next s) then 1 else 0) /\
  (forall p, times_released p (allocs s)
             = if decide (p < next s /\ nSearch (this s) <> Some p) then 1 else 0).


(** NSModel::TreeName(). *)
Definition TreeName (o : t) : string :=
  match treeType o with
  | KD_TREE => "kd-tree"
  | COVER_TREE => "cover tree"
  | R_TREE => "R tree"
  | R_STAR_TREE => "R* tree"
  | BALL_TREE => "ball tree"
  | X_TREE => "X tree"
  end.

End Model.
End NSModel.


(* ------------------------------------------------------------------ *)
(** * A small instance of the code outside                             *)
(* ------------------------------------------------------------------ *)

(** A concrete stand-in for Armadillo, the trees and the engines, on which
    the wrappers can be run. *)
Module Example.

Definition row (a : mat) (i : nat) : list float :=
  map (fun c => nth i c 0%float) (cols a).

Definition dot (u v : list float) : float :=
  foldr (fun xy acc => (fst xy * snd xy + acc)%float) 0%float (combine u v).

(** The matrix product; the shape is that of the operands' outer sizes. *)
Definition product (a b : mat) : mat :=
  mkMat (n_rows a)
        (map (fun cb => map (fun i => dot (row a i) cb) (seq 0 (n_rows a))) (cols b)).

(** The d x d diagonal matrix with [x] in the corner and ones below. *)
Definition corner (x : float) (d : nat) : mat :=
  diagmat (match d with 0 => [] | S d' => x :: repeat 1%float d' end).

(** The product of the diagonal. *)
Definition diag_product (m : mat) : float :=
  foldr (fun i acc =>
           match at_ m i i with Ret x => (x * acc)%float | _ => acc end)
        1%float (seq 0 (n_rows m)).

(** The d x d diagonal matrix with [x] in the corner and [y] below. *)
Definition diagonal (x y : float) (d : nat) : mat :=
  diagmat (match d with 0 => [] | S d' => x :: repeat y d' end).

Lemma product_n_cols (a b : mat) : n_cols (product a b) = n_cols b.
Proof. unfold product, n_cols. simpl. apply length_map. Qed.

Lemma diagonal_n_rows (x y : float) (d : nat) : n_rows (diagonal x y d) = d.
Proof. destruct d; simpl; [reflexivity|]. by rewrite repeat_length. Qed.

Lemma corner_n_rows (x : float) (d : nat) : n_rows (corner x d) = d.
Proof. apply (diagonal_n_rows x 1%float). Qed.

(** A square matrix is decomposed into itself and [r]; others are not. *)
Definition square_qr (r : nat -> mat) (x : mat) : option (mat * mat) :=
  if decide (n_cols x = n_rows x) then Some (x, r (n_rows x)) else None.

Lemma square_qr_sizes (r : nat -> mat) :
  (forall d, n_rows (r d) = d) ->
  forall x q0 r0,
    square_qr r x = Some (q0, r0) -> n_cols q0 = n_rows x /\ n_rows r0 = n_rows x.
Proof.
  intros Hr x q0 r0. unfold square_qr. case_decide as Hsq; [|discriminate].
  intros [= <- <-]. by split.
Qed.

(** Two reflections are drawn before the first rotation. *)
Definition arma : Armadillo := {|
  uninit_u := fun _ _ => 7;
  uninit_d := fun _ _ => 7%float;
  mul := product;
  randn := fun n d => corner (if n <? 2 then (-1)%float else 1%float) d;
  qr := square_qr (corner 1%float);
  det := diag_product;
  mul_n_cols := product_n_cols;
  randn_n_rows := fun n d =>
    corner_n_rows (if n <? 2 then (-1)%float else 1%float) d;
  qr_sizes := square_qr_sizes (corner 1%float) (corner_n_rows 1%float);
|}.


(** A tree is the point set in reverse order; the engine remembers what it
    was trained on and answers a query on point [i] with the index [i] and
    the first coordinate of the point. *)
Definition answer {A} (k : nat) (f : nat -> list float -> A) (points : mat)
  : Mat A :=
  mkMat k (imap (fun i c => repeat (f i c) k) (cols points)).

Definition search (points : mat) (k : nat)
    (x : NeighborSearch (option mat) * umat * mat)
  : result unit * (NeighborSearch (option mat) * umat * mat) :=
  (Ret tt, (fst (fst x),
            answer k (fun i _ => i) points,
            answer k (fun _ c => hd 0%float c) points)).

Definition lib : NeighborSearchLib := {|
  Tree := mat;
  NSRest := option mat;
  build_tree := fun _ data _ =>
    (mkMat (n_rows data) (rev (cols data)), rev (seq 0 (n_cols data)));
  ns_new := fun _ naive singleMode => mkNS naive singleMode false [] None;
  ns_Train_tree := fun _ t n =>
    (Ret tt, mkNS (naive n) (singleMode n) false [] (Some t));
  ns_Train_mat := fun _ m n =>
    (Ret tt, mkNS (naive n) (singleMode n) false [] (Some m));
  ns_Search_mat := fun _ querySet k x => search querySet k x;
  ns_Search_tree := fun _ queryTree k x => search queryTree k x;
  ns_Search_self := fun _ k x =>
    search (default empty_mat (ns_rest (fst (fst x)))) k x;
  ns_ReferenceSet := fun _ n => default empty_mat (ns_rest n);
|}.

Definition spill : SpillLib := {|
  SpillTree := mat * float;
  SpillRest := option mat;
  MetricType := unit;
  build_spill_tree := fun data tau => (data, tau);
  sp_new := fun naive singleMode _ _ => mkNS naive singleMode false [] None;
  sp_new_for_tree := fun singleMode _ _ => mkNS false singleMode false [] None;
  sp_Train_tree := fun t n =>
    (Ret tt, mkNS (naive n) (singleMode n) false [] (Some (fst t)));
  sp_Train_mat := fun m n =>
    (Ret tt, mkNS (naive n) (singleMode n) false [] (Some m));
  sp_Search_mat := fun querySet k x => search querySet k x;
  sp_Search_tree := fun queryTree k _ x => search (fst queryTree) k x;
  sp_Search_self := fun k x =>
    search (default empty_mat (ns_rest (fst (fst x)))) k x;
  sp_ReferenceSet := fun n => default empty_mat (ns_rest n);
|}.

(** Three points of the plane, one per column. *)
Definition points : mat :=
  mkMat 2 [[0%float; 0%float]; [1%float; 0%float]; [5%float; 5%float]].

(** A dual-tree NeighborSearchLeaf over kd-trees about to search [points]. *)
Definition leaf_searching : NeighborSearchLeaf.search_store (Lib := lib) :=
  NeighborSearchLeaf.mkSearch
    (NeighborSearchLeaf.new (Lib := lib) KD_TREE false false 20)
    points empty_mat empty_mat [].

(** The same wrapper about to be trained on [points]. *)
Definition leaf_training : NeighborSearchLeaf.train_store (Lib := lib) :=
  NeighborSearchLeaf.mkTrain
    (NeighborSearchLeaf.new (Lib := lib) KD_TREE false false 20) points [].

(** A dual-tree SpillSearch with overlap 1/2 about to search [points]. *)
Definition spill_searching : SpillSearch.store (Lib := spill) :=
  SpillSearch.mkStore
    (SpillSearch.mk (Lib := spill) (mkNS false false true [] (Some points))
                    0.5%float)
    points empty_mat empty_mat [].

(** A model with a random basis that was never built, handed [points]. *)
Definition unbuilt : NSModel.store (Lib := lib) :=
  NSModel.with_args points (NSModel.fresh_store (NSModel.new KD_TREE true)).


(** An engine that refuses to search for more neighbours than it has
    reference points, as NeighborSearch does. *)
Definition refuse_large_k (k : nat)
    (x : NeighborSearch (option mat) * umat * mat)
    (answer : result unit * (NeighborSearch (option mat) * umat * mat))
  : result unit * (NeighborSearch (option mat) * umat * mat) :=
  if decide (k <= n_cols (default empty_mat (ns_rest (fst (fst x)))))
  then answer
  else (Throw (invalid_argument "k exceeds the number of reference points"), x).

Definition strict : NeighborSearchLib := {|
  Tree := mat;
  NSRest := option mat;
  build_tree := fun _ data _ =>
    (mkMat (n_rows data) (rev (cols data)), rev (seq 0 (n_cols data)));
  ns_new := fun _ naive singleMode => mkNS naive singleMode false [] None;
  ns_Train_tree := fun _ t n =>
    (Ret tt, mkNS (naive n) (singleMode n) false [] (Some t));
  ns_Train_mat := fun _ m n =>
    (Ret tt, mkNS (naive n) (singleMode n) false [] (Some m));
  ns_Search_mat := fun _ querySet k x => refuse_large_k k x (search querySet k x);
  ns_Search_tree := fun _ queryTree k x =>
    refuse_large_k k x (search queryTree k x);
  ns_Search_self := fun _ k x =>
    refuse_large_k k x (search (default empty_mat (ns_rest (fst (fst x)))) k x);
  ns_ReferenceSet := fun _ n => default empty_mat (ns_rest n);
|}.

(** A dual-tree wrapper that was never trained, about to search [points]
    into two matrices that already hold something. *)
Definition untrained_searching : NeighborSearchLeaf.search_store (Lib := strict) :=
  NeighborSearchLeaf.mkSearch
    (NeighborSearchLeaf.new (Lib := strict) KD_TREE false false 20)
    points (mkMat 1 [[4]; [2]]) (mkMat 1 [[4%float]; [2%float]]) [].

(** A kd-tree model without random basis, built on [points]. *)
Definition built : NSModel.store (Lib := lib) :=
  snd (NSModel.BuildModel (Arma := arma) 0 20 false false
         (NSModel.with_args points (NSModel.fresh_store (NSModel.new KD_TREE false)))).

(** A cover-tree model with the identity as its basis and a trained engine
    at address 0, handed [points] as a query set. *)
Definition rotated : NSModel.store (Lib := lib) :=
  NSModel.mkStore (Lib := lib)
    (NSModel.mk COVER_TREE true (corner 1%float 2) (Some 0))
    points empty_mat empty_mat
    {[0 := NSModel.NSType (Lib := lib) COVER_TREE
             (mkNS false false false [] (Some points))]}
    1 3 [NSModel.New 0] [].


(** The same dual-tree wrapper about to search an empty query set. *)
Definition leaf_searching_nothing : NeighborSearchLeaf.search_store (Lib := lib) :=
  NeighborSearchLeaf.mkSearch
    (NeighborSearchLeaf.new (Lib := lib) KD_TREE false false 20)
    (mkMat 2 []) (mkMat 1 [[4]; [2]]) (mkMat 1 [[4%float]; [2%float]]) [].



(** An archive that holds one value under each name the models use. *)
Record file : Type := mkFile {
  f_treeType : TreeTypes;
  f_randomBasis : bool;
  f_q : mat;
  f_engine : option (NSModel.Engine (Lib := lib));
  f_neighborSearch : NeighborSearch (option mat);
  f_tau : float;
}.

Definition file_treeType : Archiver file TreeTypes := {|
  save_nvp := fun _ x f =>
    (Ret tt, mkFile x (f_randomBasis f) (f_q f) (f_engine f)
                    (f_neighborSearch f) (f_tau f));
  load_nvp := fun _ f => (Ret (f_treeType f), f);
|}.

Definition file_bool : Archiver file bool := {|
  save_nvp := fun _ x f =>
    (Ret tt, mkFile (f_treeType f) x (f_q f) (f_engine f)
                    (f_neighborSearch f) (f_tau f));
  load_nvp := fun _ f => (Ret (f_randomBasis f), f);
|}.

Definition file_mat : Archiver file mat := {|
  save_nvp := fun _ x f =>
    (Ret tt, mkFile (f_treeType f) (f_randomBasis f) x (f_engine f)
                    (f_neighborSearch f) (f_tau f));
  load_nvp := fun _ f => (Ret (f_q f), f);
|}.

Definition file_engine : Archiver file (NeighborSearch (option mat)) := {|
  save_nvp := fun _ x f =>
    (Ret tt, mkFile (f_treeType f) (f_randomBasis f) (f_q f) (f_engine f)
                    x (f_tau f));
  load_nvp := fun _ f => (Ret (f_neighborSearch f), f);
|}.

Definition file_double : Archiver file float := {|
  save_nvp := fun _ x f =>
    (Ret tt, mkFile (f_treeType f) (f_randomBasis f) (f_q f) (f_engine f)
                    (f_neighborSearch f) x);
  load_nvp := fun _ f => (Ret (f_tau f), f);
|}.

(** Loading through a pointer to a class makes an object of that class of
    the engine state the file holds. *)
Definition as_class (target : NSModel.EngineClass * TreeTypes)
    (e : NSModel.Engine (Lib := lib)) : NSModel.Engine (Lib := lib) :=
  match fst target with
  | NSModel.IsNSLeaf =>
    NSModel.NSLeaf (snd target)
      (NeighborSearchLeaf.mk 20 (snd (NSModel.engine_ns e)))
  | NSModel.IsNSType => NSModel.NSType (snd target) (snd (NSModel.engine_ns e))
  end.

Lemma as_class_class target (f : file) e (f' : file) :
  (Ret (as_class target <$> f_engine f), f) = (Ret (Some e), f') ->
  NSModel.class_of e = target.
Proof.
  intros [= H _]. destruct (f_engine f) as [e0|]; [|discriminate].
  injection H as <-. by destruct target as [[] ty].
Qed.

Definition file_pointer : NSModel.PointerArchiver (Lib := lib) file := {|
  NSModel.save_pointer := fun _ _ o f =>
    (Ret tt, mkFile (f_treeType f) (f_randomBasis f) (f_q f) o
                    (f_neighborSearch f) (f_tau f));
  NSModel.load_pointer := fun target _ f =>
    (Ret (as_class target <$> f_engine f), f);
  NSModel.load_pointer_class := fun target _ f => as_class_class target f;
|}.

(** A file that holds a cover-tree model, and a negative overlap. *)
Definition cover_file : file :=
  mkFile COVER_TREE false empty_mat
         (Some (NSModel.NSType (Lib := lib) COVER_TREE
                  (mkNS false false false [] (Some points))))
         (mkNS false false false [] None) (-1)%float.


End Example.


(* ------------------------------------------------------------------ *)
(** * Properties of NeighborSearchLeaf                                 *)
(* ------------------------------------------------------------------ *)

Section LeafFacts.
Context `{Arma : Armadillo} `{Lib : NeighborSearchLib}.
Variable TreeType : TreeTypes.

Import NeighborSearchLeaf.

Ltac unfold_monad :=
  unfold bind, gets, modify, lift, ret, throw in *; simpl in *.

Lemma set_col_Ret {A} (m : Mat A) j c :
  j < n_cols m ->
  set_col m j c = Ret (mkMat (n_rows m) (<[j := c]> (cols m))).
Proof. intros Hj. unfold set_col. by rewrite decide_True. Qed.

Lemma n_cols_set_size {A} (f : nat -> nat -> A) r c m :
  n_cols (set_size f r c m) = c /\ n_rows (set_size f r c m) = r.
Proof.
  unfold set_size. case_decide as H.
  - by destruct H.
  - unfold fresh_mat, n_cols. simpl. by rewrite length_map, length_seq.
Qed.

(** One run of the unmapping loop from [i]: when the indices it meets are
    distinct and inside the output, it returns; the columns it was told to
    write hold the raw columns, the others are as before; nothing else in
    the store moves. *)
Lemma unmap_spec (perm : list nat) (nOut : umat) (dOut : mat) :
  NoDup perm ->
  forall todo i s,
    i + todo <= length perm ->
    i + todo <= n_cols nOut ->
    i + todo <= n_cols dOut ->
    (forall j, j ∈ perm -> j < n_cols (neighbors s) /\ j < n_cols (distances s)) ->
    exists s',
      unmap perm nOut dOut i todo s = (Ret tt, s') /\
      this s' = this s /\ querySet s' = querySet s /\ calls s' = calls s /\
      n_rows (neighbors s') = n_rows (neighbors s) /\
      n_rows (distances s') = n_rows (distances s) /\
      n_cols (neighbors s') = n_cols (neighbors s) /\
      n_cols (distances s') = n_cols (distances s) /\
      (forall i' j, i <= i' < i + todo -> perm !! i' = Some j ->
         cols (neighbors s') !! j = cols nOut !! i' /\
         cols (distances s') !! j = cols dOut !! i') /\
      (forall j, (forall i', i <= i' < i + todo -> perm !! i' <> Some j) ->
         cols (neighbors s') !! j = cols (neighbors s) !! j /\
         cols (distances s') !! j = cols (distances s) !! j).
Proof.
  intros Hnd. induction todo as [|todo IH]; intros i s Hp Hn Hd Hin.
  - exists s. simpl. unfold ret. repeat split; try done; intros; lia.
  - destruct (lookup_lt_is_Some_2 perm i) as [j Hj]; [lia|].
    destruct (lookup_lt_is_Some_2 (cols nOut) i) as [c Hc]; [unfold n_cols in Hn; lia|].
    destruct (lookup_lt_is_Some_2 (cols dOut) i) as [d Hdc]; [unfold n_cols in Hd; lia|].
    assert (Hjin : j ∈ perm) by (eapply list_elem_of_lookup_2; eauto).
    destruct (Hin j Hjin) as [Hjn Hjd].
    set (s1 := set_distances (mkMat (n_rows (distances s)) (<[j := d]> (cols (distances s))))
                 (set_neighbors (mkMat (n_rows (neighbors s)) (<[j := c]> (cols (neighbors s)))) s)).
    destruct (IH (S i) s1) as (s' & Hrun & Ht & Hq & Hcalls & Hrn & Hrd & Hcn & Hcd & Hw & Hf).
    { lia. } { lia. } { lia. }
    { intros j' Hj'. destruct (Hin j' Hj') as [? ?]. subst s1. simpl.
      unfold n_cols in *. simpl. rewrite !length_insert. done. }
    exists s'. split.
    { rewrite <- Hrun. simpl unmap.
      cbv beta iota delta [bind lift gets modify vector_at col
        assign_neighbors_col assign_distances_col].
      rewrite Hj, Hc, Hdc. cbv beta iota.
      rewrite (set_col_Ret (neighbors s)) by done. cbv beta iota.
      simpl distances. rewrite (set_col_Ret (distances s)) by done.
      reflexivity. }
    subst s1. simpl in *. unfold n_cols in *. simpl in *.
    rewrite !length_insert in *.
    repeat split; try done.
    + destruct (decide (i' = i)) as [->|Hne].
      * assert (j0 = j) by congruence. subst j0.
        destruct (Hf j) as [Hfn _].
        { intros i'' Hi'' Heq.
          assert (i'' = i) by (eapply NoDup_lookup; eauto). lia. }
        rewrite Hfn, Hc. by apply list_lookup_insert_eq.
      * apply Hw; [lia|done].
    + destruct (decide (i' = i)) as [->|Hne].
      * assert (j0 = j) by congruence. subst j0.
        destruct (Hf j) as [_ Hfd].
        { intros i'' Hi'' Heq.
          assert (i'' = i) by (eapply NoDup_lookup; eauto). lia. }
        rewrite Hfd, Hdc. by apply list_lookup_insert_eq.
      * apply Hw; [lia|done].
    + destruct (Hf j0) as [Hfn _]; [intros; apply H; lia|].
      rewrite Hfn. apply list_lookup_insert_ne. intros ->. eapply (H i); [lia|done].
    + destruct (Hf j0) as [_ Hfd]; [intros; apply H; lia|].
      rewrite Hfd. apply list_lookup_insert_ne. intros ->. eapply (H i); [lia|done].
Qed.

(** The loop never touches the query matrix, however it ends. *)
Lemma unmap_querySet (perm : list nat) (nOut : umat) (dOut : mat) :
  forall todo i s, querySet (snd (unmap perm nOut dOut i todo s)) = querySet s.
Proof.
  induction todo as [|todo IH]; intros i s; [reflexivity|].
  simpl unmap.
  cbv beta iota delta [bind lift gets modify vector_at col
    assign_neighbors_col assign_distances_col set_col].
  destruct (perm !! i) as [j|]; [|reflexivity].
  destruct (cols nOut !! i) as [c|]; [|reflexivity].
  destruct (decide (j < n_cols (neighbors s))); [|reflexivity].
  destruct (cols dOut !! i) as [d|]; [|reflexivity].
  cbv beta iota. simpl distances.
  destruct (decide (j < n_cols (distances s))); [|reflexivity].
  cbv beta iota. rewrite IH. reflexivity.
Qed.

(** C1: in dual-index mode Search builds a query tree (recording
    oldFromNewQueries), runs the traversal on it into two local matrices, and
    leaves in column oldFromNewQueries[i] of the caller's neighbors and
    distances the column i of the raw output, for every column i; in naive
    or single mode it is the engine's search on the query matrix and the
    caller's two matrices: the engine's result is the result, the engine's
    state and outputs are what the object and the caller are left with, and
    no permutation is applied.  In the dual-index part, the permutation map
    is a bijection on the query indices and the engine returns one column
    per query point. *)
Theorem Search_unmaps_query_columns (k : nat) (s : search_store) :
  (naive (ns (this s)) = false -> singleMode (ns (this s)) = false ->
   forall ns' neighborsOut distancesOut,
     let queryTree := fst (build_tree TreeType (querySet s) (leafSize (this s))) in
     let oldFromNewQueries :=
       snd (build_tree TreeType (querySet s) (leafSize (this s))) in
     ns_Search_tree TreeType queryTree k (ns (this s), empty_mat, empty_mat)
       = (Ret tt, (ns', neighborsOut, distancesOut)) ->
     oldFromNewQueries ≡ₚ seq 0 (n_cols neighborsOut) ->
     n_cols distancesOut = n_cols neighborsOut ->
     exists s',
       Search TreeType k s = (Ret tt, s') /\
       calls s' = calls s ++ [TreeBuilt TreeType (querySet s) (leafSize (this s));
                              NsSearchTree TreeType queryTree k] /\
       this s' = mk (leafSize (this s)) ns' /\
       n_rows (neighbors s') = n_rows neighborsOut /\
       n_cols (neighbors s') = n_cols neighborsOut /\
       n_rows (distances s') = n_rows distancesOut /\
       n_cols (distances s') = n_cols distancesOut /\
       forall i, i < n_cols neighborsOut ->
         exists j, oldFromNewQueries !! i = Some j /\
           cols (neighbors s') !! j = cols neighborsOut !! i /\
           cols (distances s') !! j = cols distancesOut !! i)
  /\
  (naive (ns (this s)) = true \/ singleMode (ns (this s)) = true ->
   let r := ns_Search_mat TreeType (querySet s) k
              (ns (this s), neighbors s, distances s) in
   Search TreeType k s
     = (fst r,
        mkSearch (mk (leafSize (this s)) (fst (fst (snd r)))) (querySet s)
                 (snd (fst (snd r))) (snd (snd r))
                 (calls s ++ [NsSearchMat TreeType (querySet s) k]))).
Proof.
  split.
  - intros Hn Hs ns' nOut dOut queryTree perm Hsearch Hperm Hcols.
    assert (Hlen : length perm = n_cols nOut).
    { rewrite Hperm. apply length_seq. }
    assert (Hnd : NoDup perm).
    { rewrite Hperm. apply NoDup_seq. }
    set (s0 := mkSearch (mk (leafSize (this s)) ns') (querySet s)
                 (set_size uninit_u (n_rows nOut) (n_cols nOut) (neighbors s))
                 (set_size uninit_d (n_rows dOut) (n_cols dOut) (distances s))
                 (calls s ++ [TreeBuilt TreeType (querySet s) (leafSize (this s))]
                          ++ [NsSearchTree TreeType queryTree k])).
    destruct (n_cols_set_size uninit_u (n_rows nOut) (n_cols nOut) (neighbors s))
      as [Hc1 Hr1].
    destruct (n_cols_set_size uninit_d (n_rows dOut) (n_cols dOut) (distances s))
      as [Hc2 Hr2].
    destruct (unmap_spec perm nOut dOut Hnd (n_cols nOut) 0 s0)
      as (s' & Hrun & Ht & Hq & Hcalls & Hrn & Hrd & Hcn & Hcd & Hw & _).
    { simpl. lia. } { simpl. lia. } { simpl. lia. }
    { intros j Hj. rewrite Hperm in Hj. apply elem_of_seq in Hj.
      subst s0. simpl. rewrite Hc1, Hc2. lia. }
    exists s'. split.
    { rewrite <- Hrun. unfold Search.
      cbv beta iota zeta delta [bind gets modify new_queryTree ns_Search_with_tree].
      rewrite Hn, Hs. change (negb false && negb false) with true.
      cbv beta iota. subst queryTree perm.
      destruct (build_tree TreeType (querySet s) (leafSize (this s)))
        as [qt pm] eqn:Hb.
      simpl fst in *. simpl snd in *. simpl this. simpl after_move.
      rewrite Hsearch. cbv beta iota zeta.
      subst s0. unfold set_distances, set_neighbors. simpl.
      rewrite <- app_assoc. reflexivity. }
    subst s0. simpl in *.
    rewrite Hcalls, Ht, Hrn, Hrd, Hcn, Hcd, Hc1, Hc2, Hr1, Hr2.
    repeat split; try done.
    intros i Hi.
    destruct (lookup_lt_is_Some_2 perm i) as [j Hj]; [lia|].
    exists j. split; [done|]. apply (Hw i j); [lia|done].
  - intros Hmode. unfold Search.
    cbv beta iota delta [bind gets].
    assert (negb (naive (ns (this s))) && negb (singleMode (ns (this s))) = false)
      as ->.
    { destruct Hmode as [-> | ->]; [reflexivity|]. apply andb_false_r. }
    unfold ns_Search_with_set.
    destruct (ns_Search_mat TreeType (querySet s) k
                (ns (this s), neighbors s, distances s)) as [r [[n' nb] ds]].
    reflexivity.
Qed.

(** C9: the caller's query matrix is the same after Search as before it,
    however the call ends: the tree of the dual-index branch is built from
    [std::move] of a const reference, which copies. *)
Theorem Search_leaves_querySet (k : nat) (s : search_store) :
  querySet (snd (Search TreeType k s)) = querySet s.
Proof.
  unfold Search.
  cbv beta iota zeta delta [bind gets modify new_queryTree ns_Search_with_tree
    ns_Search_with_set].
  destruct (negb (naive (ns (this s))) && negb (singleMode (ns (this s))));
    cbv beta iota.
  - destruct (build_tree TreeType (querySet s) (leafSize (this s))) as [qt pm].
    cbv beta iota. simpl this. simpl after_move.
    destruct (ns_Search_tree TreeType qt k (ns (this s), empty_mat, empty_mat))
      as [r [[n' nOut] dOut]].
    destruct r; try reflexivity.
    cbv beta iota. rewrite unmap_querySet. reflexivity.
  - destruct (ns_Search_mat TreeType (querySet s) k
                (ns (this s), neighbors s, distances s)) as [r [[n' nb] ds]].
    reflexivity.
Qed.

(** C7: outside naive mode Train builds a tree from the reference set with
    the configured leaf size, trains the engine on the tree, marks the
    engine as owner of the tree and stores the permutation the tree
    construction produced; in naive mode it trains the engine on the points,
    builds no tree and assigns no permutation. *)
Theorem Train_builds_and_owns_tree (s : train_store) :
  (naive (ns (tr_this s)) = false ->
   forall ns',
     let tree := fst (build_tree TreeType (tr_referenceSet s) (leafSize (tr_this s))) in
     let oldFromNewRef :=
       snd (build_tree TreeType (tr_referenceSet s) (leafSize (tr_this s))) in
     ns_Train_tree TreeType tree (ns (tr_this s)) = (Ret tt, ns') ->
     exists s',
       Train TreeType s = (Ret tt, s') /\
       tr_calls s' = tr_calls s
         ++ [TreeBuilt TreeType (tr_referenceSet s) (leafSize (tr_this s));
             NsTrainTree TreeType tree] /\
       leafSize (tr_this s') = leafSize (tr_this s) /\
       treeOwner (ns (tr_this s')) = true /\
       oldFromNewReferences (ns (tr_this s')) = oldFromNewRef /\
       ns (tr_this s') = set_oldFromNewReferences oldFromNewRef (set_treeOwner true ns'))
  /\
  (naive (ns (tr_this s)) = true ->
   let r := ns_Train_mat TreeType (tr_referenceSet s) (ns (tr_this s)) in
   fst (Train TreeType s) = fst r /\
   ns (tr_this (snd (Train TreeType s))) = snd r /\
   tr_calls (snd (Train TreeType s))
     = tr_calls s ++ [NsTrainMat TreeType (tr_referenceSet s)]).
Proof.
  split.
  - intros Hn ns' tree perm Htrain.
    unfold Train.
    cbv beta iota zeta delta [bind gets modify new_referenceTree
      ns_Train_with_tree assign_ns].
    rewrite Hn. change (negb false) with true. cbv beta iota.
    subst tree perm.
    destruct (build_tree TreeType (tr_referenceSet s) (leafSize (tr_this s)))
      as [tr pm].
    simpl fst in *. simpl snd in *. simpl. rewrite Htrain. simpl.
    eexists. split; [reflexivity|]. simpl.
    rewrite <- app_assoc. repeat split; done.
  - intros Hn. unfold Train.
    cbv beta iota zeta delta [bind gets ns_Train_with_set].
    rewrite Hn. change (negb true) with false. cbv beta iota.
    destruct (ns_Train_mat TreeType (tr_referenceSet s) (ns (tr_this s)))
      as [r ns'].
    simpl. repeat split; done.
Qed.

End LeafFacts.

(* ------------------------------------------------------------------ *)
(** * Properties of SpillSearch                                        *)
(* ------------------------------------------------------------------ *)

(** On doubles, [0 <= x] excludes [x < 0]. *)
Lemma nonneg_not_neg (x : float) :
  (0 <=? x)%float = true -> (x <? 0)%float = false.
Proof.
  rewrite leb_spec, ltb_spec. unfold SFleb, SFltb.
  change (Prim2SF 0) with (S754_zero false).
  destruct (Prim2SF x) as [[]| [] | | [] m e]; simpl;
    try reflexivity; try discriminate.
Qed.

Section SpillFacts.
Context `{Lib : SpillLib}.

Import SpillSearch.

Ltac run_spill :=
  cbv beta iota zeta delta [bind gets modify ret throw lift log new_Tree
    on_engine on_engine_out check_tau Train_copy Train_move Train_tree
    Search Search_self Search_tree new_from_set new_from_moved_set
    new_from_tree new_empty];
  simpl.

(** C2: a tree that Search or the self-search builds is built with overlap
    0, whatever the overlap of the object is.  In dual-tree mode Search is
    the engine's tree search on the tree built from the query set with
    overlap 0: the engine's result and outputs are what the caller gets.
    The self-search, when tau is not 0, is the engine's tree search (told
    that the sets are the same) on a new tree built from the reference set
    with overlap 0; when tau is 0, or in naive or single mode, it is the
    plain self-search of the engine and builds nothing.  In naive or single
    mode Search is the engine's search on the query matrix. *)
Theorem query_tree_has_no_overlap (k : nat) (s : store) :
  (forall c tau', c ∈ drop (length (calls s)) (calls (snd (Search k s))) ->
     tau_of_call c = Some tau' -> tau' = 0%float)
  /\
  (forall c tau', c ∈ drop (length (calls s)) (calls (snd (Search_self k s))) ->
     tau_of_call c = Some tau' -> tau' = 0%float)
  /\
  (Naive (this s) = false -> SingleMode (this s) = false ->
   let queryTree := build_spill_tree (data s) 0%float in
   let r := sp_Search_tree queryTree k false
              (neighborSearch (this s), neighbors s, distances s) in
   Search k s
     = (fst r,
        mkStore (mk (fst (fst (snd r))) (tau (this s))) (data s)
                (snd (fst (snd r))) (snd (snd r))
                (calls s ++ [SpillTreeBuilt (data s) 0%float;
                             SpSearchTree queryTree k false])))
  /\
  (Naive (this s) = false -> SingleMode (this s) = false ->
   (tau (this s) =? 0)%float = false ->
   let queryTree := build_spill_tree (ReferenceSet (this s)) 0%float in
   let r := sp_Search_tree queryTree k true
              (neighborSearch (this s), neighbors s, distances s) in
   Search_self k s
     = (fst r,
        mkStore (mk (fst (fst (snd r))) (tau (this s))) (data s)
                (snd (fst (snd r))) (snd (snd r))
                (calls s ++ [SpillTreeBuilt (ReferenceSet (this s)) 0%float;
                             SpSearchTree queryTree k true])))
  /\
  ((tau (this s) =? 0)%float = true \/ Naive (this s) = true
   \/ SingleMode (this s) = true ->
   let r := sp_Search_self k
              (neighborSearch (this s), neighbors s, distances s) in
   Search_self k s
     = (fst r,
        mkStore (mk (fst (fst (snd r))) (tau (this s))) (data s)
                (snd (fst (snd r))) (snd (snd r))
                (calls s ++ [SpSearchSelf k])))
  /\
  (Naive (this s) = true \/ SingleMode (this s) = true ->
   let r := sp_Search_mat (data s) k
              (neighborSearch (this s), neighbors s, distances s) in
   Search k s
     = (fst r,
        mkStore (mk (fst (fst (snd r))) (tau (this s))) (data s)
                (snd (fst (snd r))) (snd (snd r))
                (calls s ++ [SpSearchMat (data s) k]))).
Proof.
  assert (Hq : Naive (this s) = false -> SingleMode (this s) = false ->
     let queryTree := build_spill_tree (data s) 0%float in
     let r := sp_Search_tree queryTree k false
                (neighborSearch (this s), neighbors s, distances s) in
     Search k s
       = (fst r,
          mkStore (mk (fst (fst (snd r))) (tau (this s))) (data s)
                  (snd (fst (snd r))) (snd (snd r))
                  (calls s ++ [SpillTreeBuilt (data s) 0%float;
                               SpSearchTree queryTree k false]))).
  { intros Hn Hs. run_spill. rewrite Hn, Hs. simpl.
    destruct (sp_Search_tree _ _ _ _) as [r [[n' nb] ds]]. simpl.
    by rewrite <- app_assoc. }
  assert (Hself : Naive (this s) = false -> SingleMode (this s) = false ->
     (tau (this s) =? 0)%float = false ->
     let queryTree := build_spill_tree (ReferenceSet (this s)) 0%float in
     let r := sp_Search_tree queryTree k true
                (neighborSearch (this s), neighbors s, distances s) in
     Search_self k s
       = (fst r,
          mkStore (mk (fst (fst (snd r))) (tau (this s))) (data s)
                  (snd (fst (snd r))) (snd (snd r))
                  (calls s ++ [SpillTreeBuilt (ReferenceSet (this s)) 0%float;
                               SpSearchTree queryTree k true]))).
  { intros Hn Hs Ht. run_spill. rewrite Hn, Hs, Ht. simpl.
    destruct (sp_Search_tree _ _ _ _) as [r [[n' nb] ds]]. simpl.
    by rewrite <- app_assoc. }
  assert (Hplain : (tau (this s) =? 0)%float = true \/ Naive (this s) = true
     \/ SingleMode (this s) = true ->
     let r := sp_Search_self k
                (neighborSearch (this s), neighbors s, distances s) in
     Search_self k s
       = (fst r,
          mkStore (mk (fst (fst (snd r))) (tau (this s))) (data s)
                  (snd (fst (snd r))) (snd (snd r))
                  (calls s ++ [SpSearchSelf k]))).
  { intros Hc. run_spill.
    assert ((tau (this s) =? 0)%float || Naive (this s) || SingleMode (this s)
            = true) as ->.
    { destruct Hc as [-> | [-> | ->]]; [reflexivity| |];
        rewrite ?orb_true_r; reflexivity. }
    simpl. destruct (sp_Search_self _ _) as [r [[n' nb] ds]]. by simpl. }
  assert (Hplainq : Naive (this s) = true \/ SingleMode (this s) = true ->
     let r := sp_Search_mat (data s) k
                (neighborSearch (this s), neighbors s, distances s) in
     Search k s
       = (fst r,
          mkStore (mk (fst (fst (snd r))) (tau (this s))) (data s)
                  (snd (fst (snd r))) (snd (snd r))
                  (calls s ++ [SpSearchMat (data s) k]))).
  { intros Hc. run_spill.
    assert (Naive (this s) || SingleMode (this s) = true) as ->.
    { destruct Hc as [-> | ->]; rewrite ?orb_true_r; reflexivity. }
    simpl. destruct (sp_Search_mat _ _ _) as [r [[n' nb] ds]]. by simpl. }
  split; [|split; [|split; [|split; [|split]]]].
  - intros c tau' Hin Htau.
    destruct (Naive (this s)) eqn:Hn; [|destruct (SingleMode (this s)) eqn:Hs].
    + rewrite Hplainq in Hin by auto. simpl in Hin.
      rewrite drop_app_length in Hin.
      apply list_elem_of_singleton in Hin. subst c. discriminate.
    + rewrite Hplainq in Hin by auto. simpl in Hin.
      rewrite drop_app_length in Hin.
      apply list_elem_of_singleton in Hin. subst c. discriminate.
    + rewrite Hq in Hin by auto. simpl in Hin.
      rewrite drop_app_length in Hin.
      apply elem_of_cons in Hin as [-> | Hin].
      * simpl in Htau. congruence.
      * apply list_elem_of_singleton in Hin. subst c. discriminate.
  - intros c tau' Hin Htau.
    destruct (tau (this s) =? 0)%float eqn:Ht;
      [|destruct (Naive (this s)) eqn:Hn; [|destruct (SingleMode (this s)) eqn:Hs]].
    1-3: rewrite Hplain in Hin by auto; simpl in Hin;
         rewrite drop_app_length in Hin;
         apply list_elem_of_singleton in Hin; subst c; discriminate.
    rewrite Hself in Hin by auto. simpl in Hin.
    rewrite drop_app_length in Hin.
    apply elem_of_cons in Hin as [-> | Hin].
    + simpl in Htau. congruence.
    + apply list_elem_of_singleton in Hin. subst c. discriminate.
  - exact Hq.
  - exact Hself.
  - exact Hplain.
  - exact Hplainq.
Qed.

(** The store a constructor body starts on. *)
Lemma check_tau_nonneg (s : store) :
  (0 <=? tau (this s))%float = true -> check_tau s = (Ret tt, s).
Proof.
  intros H. run_spill. by rewrite (nonneg_not_neg _ H).
Qed.

Lemma check_tau_neg (s : store) :
  (tau (this s) <? 0)%float = true -> check_tau s = (Throw InvalidParameter, s).
Proof. intros H. run_spill. by rewrite H. Qed.

(** Train returns when the engine's Train does. *)
Lemma Train_returns (referenceTree : SpillTree) (s : store) :
  (forall x n, fst (sp_Train_mat x n) = Ret tt) ->
  (forall t n, fst (sp_Train_tree t n) = Ret tt) ->
  fst (Train_copy s) = Ret tt /\ fst (Train_move s) = Ret tt /\
  fst (Train_tree referenceTree s) = Ret tt.
Proof.
  intros Hm Ht. repeat split; run_spill.
  - destruct (Naive (this s)); simpl.
    + specialize (Hm (data s) (neighborSearch (this s))).
      destruct (sp_Train_mat _ _) as [r n']. simpl in *. by subst r.
    + specialize (Ht (build_spill_tree (data s) (tau (this s)))
                     (neighborSearch (this s))).
      destruct (sp_Train_tree _ _) as [r n']. simpl in *. by subst r.
  - destruct (Naive (this s)); simpl.
    + specialize (Hm (data s) (neighborSearch (this s))).
      destruct (sp_Train_mat _ _) as [r n']. simpl in *. by subst r.
    + specialize (Ht (build_spill_tree (data s) (tau (this s)))
                     (neighborSearch (this s))).
      destruct (sp_Train_tree _ _) as [r n']. simpl in *. by subst r.
  - specialize (Ht referenceTree (neighborSearch (this s))).
    destruct (sp_Train_tree _ _) as [r n']. simpl in *. by subst r.
Qed.

(** C4: with tau < 0 each of the four constructors throws the
    invalid-argument exception with the members as the initialiser list left
    them, and has made no call that trains the engine or builds a tree; with
    tau >= 0 the check passes, the constructor is its call of Train (the
    fourth has none and returns), and it returns whenever training the
    engine does. *)
Theorem constructors_check_tau (referenceSetIn : mat) (referenceTree : SpillTree)
    (nv sm : bool) (t0 epsilon : float) (metric : MetricType) :
  let init data :=
    mkStore (mk (sp_new nv sm epsilon metric) t0)
            data empty_mat empty_mat [] in
  let init_tree :=
    mkStore (mk (sp_new_for_tree sm epsilon metric) t0)
            empty_mat empty_mat empty_mat [] in
  ((t0 <? 0)%float = true ->
   new_from_set referenceSetIn nv sm t0 epsilon metric
     = (Throw InvalidParameter, init referenceSetIn) /\
   new_from_moved_set referenceSetIn nv sm t0 epsilon metric
     = (Throw InvalidParameter, init referenceSetIn) /\
   new_from_tree referenceTree sm t0 epsilon metric
     = (Throw InvalidParameter, init_tree) /\
   new_empty nv sm t0 epsilon metric
     = (Throw InvalidParameter, init empty_mat) /\
   calls (snd (new_from_set referenceSetIn nv sm t0 epsilon metric)) = [] /\
   calls (snd (new_from_moved_set referenceSetIn nv sm t0 epsilon metric)) = [] /\
   calls (snd (new_from_tree referenceTree sm t0 epsilon metric)) = [] /\
   calls (snd (new_empty nv sm t0 epsilon metric)) = [])
  /\
  ((0 <=? t0)%float = true ->
   new_from_set referenceSetIn nv sm t0 epsilon metric
     = Train_copy (init referenceSetIn) /\
   new_from_moved_set referenceSetIn nv sm t0 epsilon metric
     = Train_move (init referenceSetIn) /\
   new_from_tree referenceTree sm t0 epsilon metric
     = Train_tree referenceTree init_tree /\
   new_empty nv sm t0 epsilon metric = (Ret tt, init empty_mat) /\
   ((forall x n, fst (sp_Train_mat x n) = Ret tt) ->
    (forall t n, fst (sp_Train_tree t n) = Ret tt) ->
    fst (new_from_set referenceSetIn nv sm t0 epsilon metric) = Ret tt /\
    fst (new_from_moved_set referenceSetIn nv sm t0 epsilon metric) = Ret tt /\
    fst (new_from_tree referenceTree sm t0 epsilon metric) = Ret tt)).
Proof.
  intros init init_tree. split.
  - intros Hneg.
    unfold new_from_set, new_from_moved_set, new_from_tree, new_empty.
    unfold bind. rewrite !check_tau_neg by exact Hneg. done.
  - intros Hpos.
    assert (E1 : new_from_set referenceSetIn nv sm t0 epsilon metric
                 = Train_copy (init referenceSetIn)).
    { unfold new_from_set, bind. by rewrite check_tau_nonneg. }
    assert (E2 : new_from_moved_set referenceSetIn nv sm t0 epsilon metric
                 = Train_move (init referenceSetIn)).
    { unfold new_from_moved_set, bind. by rewrite check_tau_nonneg. }
    assert (E3 : new_from_tree referenceTree sm t0 epsilon metric
                 = Train_tree referenceTree init_tree).
    { unfold new_from_tree, bind. by rewrite check_tau_nonneg. }
    assert (E4 : new_empty nv sm t0 epsilon metric = (Ret tt, init empty_mat)).
    { unfold new_empty. by rewrite check_tau_nonneg. }
    repeat split; try done.
    + rewrite E1. by apply (Train_returns referenceTree).
    + rewrite E2. by apply (Train_returns referenceTree).
    + rewrite E3. by apply (Train_returns referenceTree).
Qed.

End SpillFacts.

(* ------------------------------------------------------------------ *)
(** * Properties of NSModel                                            *)
(* ------------------------------------------------------------------ *)

Section ModelFacts.
Context `{Arma : Armadillo} `{Lib : NeighborSearchLib}.

Import NSModel.




(** ** The random basis *)

Lemma rDiag_from_spec (r : mat) :
  forall todo i v,
    rDiag_from r i todo = Ret v ->
    length v = todo /\
    forall m, m < todo ->
      exists x, at_ r (i + m) (i + m) = Ret x /\
        v !! m = Some (if (x <? 0)%float then (-1)%float
                       else if (0 <? x)%float then 1%float
                       else 0%float).
Proof.
  induction todo as [|todo IH]; intros i v H; simpl in H.
  - inversion H. split; [reflexivity|]. intros; lia.
  - destruct (at_ r i i) as [x| | |] eqn:Hx; try discriminate.
    destruct (rDiag_from r (S i) todo) as [v'| | |] eqn:Hv; try discriminate.
    inversion H; subst v. destruct (IH _ _ Hv) as [Hlen Hel].
    split; [simpl; lia|].
    intros [|m] Hm.
    + exists x. rewrite Nat.add_0_r. by split.
    + destruct (Hel m) as (y & Hy & Hvy); [lia|].
      exists y. replace (i + S m) with (S i + m) by lia. by split.
Qed.

Lemma diagmat_sizes (v : list float) :
  n_cols (diagmat v) = length v /\ n_rows (diagmat v) = length v.
Proof. unfold diagmat, n_cols. simpl. by rewrite length_imap. Qed.

(** Inside the loop the sizes of the two factors agree: Q has as many
    columns as the draw has rows, and rDiag as many entries as R has rows. *)
Lemma times_in_loop (x q0 r : mat) (v : list float) :
  qr x = Some (q0, r) -> rDiag_from r 0 (n_rows r) = Ret v ->
  times q0 (diagmat v) = Ret (mul q0 (diagmat v)) /\
  n_cols (mul q0 (diagmat v)) = n_rows x.
Proof.
  intros Hqr Hv. destruct (qr_sizes _ _ _ Hqr) as [Hq Hr].
  destruct (rDiag_from_spec r _ _ _ Hv) as [Hlen _].
  destruct (diagmat_sizes v) as [Hc Hrows].
  split.
  - unfold times. rewrite decide_True; [done|]. congruence.
  - rewrite mul_n_cols. congruence.
Qed.

(** A draw that passes leaves a basis with as many columns as the draw has
    rows. *)
Lemma basis_of_draw_cols (x b : mat) :
  basis_of_draw x = Ret (b, true) -> n_cols b = n_rows x.
Proof.
  unfold basis_of_draw.
  destruct (qr x) as [[q0 r]|] eqn:Hqr; [|discriminate].
  destruct (rDiag_from r 0 (n_rows r)) as [v| | |] eqn:Hv; try discriminate.
  destruct (times_in_loop _ _ _ _ Hqr Hv) as [-> Hc].
  by intros [= <- _].
Qed.

Lemma with_basis_with_basis b b' n m s :
  with_basis b' m (with_basis b n s) = with_basis b' (n + m) s.
Proof. unfold with_basis. simpl. by rewrite Nat.add_assoc. Qed.

(** One pass of the loop body, when no subscript check fires. *)
Lemma random_basis_loop_step (fuel d : nat) (s : store) b stop :
  basis_of_draw (randn (draws s) d) = Ret (b, stop) ->
  random_basis_loop (S fuel) d s
  = if stop then (Ret tt, with_basis b 1 s)
    else random_basis_loop fuel d (with_basis b 1 s).
Proof.
  unfold basis_of_draw. intros H. simpl random_basis_loop.
  cbv beta iota zeta delta [bind gets modify lift next_randn ret].
  destruct (qr (randn (draws s) d)) as [[q0 r]|] eqn:Hqr.
  - destruct (rDiag_from r 0 (n_rows r)) as [v| | |] eqn:Hv; try discriminate.
    destruct (times_in_loop _ _ _ _ Hqr Hv) as [Ht _]. rewrite Ht in H |- *.
    inversion H; subst b stop. cbv beta iota. simpl.
    unfold with_basis, set_q, set_this. simpl. rewrite Nat.add_1_r.
    destruct (0 <=? det (mul q0 (diagmat v)))%float; reflexivity.
  - inversion H; subst b stop. cbv beta iota.
    unfold with_basis, set_q, set_this. simpl. by rewrite Nat.add_1_r.
Qed.

(** A pass in which a subscript check fires ends the loop with what it
    raised; the engine, the reference set and the logs are as before. *)
Lemma random_basis_loop_raise (fuel d : nat) (s : store) :
  (forall b stop, basis_of_draw (randn (draws s) d) <> Ret (b, stop)) ->
  exists q0,
    random_basis_loop (S fuel) d s
    = (match basis_of_draw (randn (draws s) d) with
       | Ret _ => Ret tt
       | Throw e => Throw e
       | Undefined => Undefined
       | OutOfFuel => OutOfFuel
       end, with_basis q0 1 s) /\
    fst (random_basis_loop (S fuel) d s) <> Ret tt.
Proof.
  unfold basis_of_draw. intros H. simpl random_basis_loop.
  cbv beta iota zeta delta [bind gets modify lift next_randn ret].
  destruct (qr (randn (draws s) d)) as [[q0 r]|] eqn:Hqr.
  - exists q0.
    destruct (rDiag_from r 0 (n_rows r)) as [v| | |] eqn:Hv; cbv beta iota;
      unfold with_basis, set_q, set_this; simpl; rewrite ?Nat.add_1_r;
      try (split; [reflexivity|discriminate]).
    exfalso. destruct (times_in_loop _ _ _ _ Hqr Hv) as [Ht _].
    rewrite Ht in H. by eapply H.
  - exfalso. by eapply H.
Qed.

(** However the loop ends, it only moved [q] and the stream of draws. *)
Lemma random_basis_loop_frame (d : nat) :
  forall fuel s, exists b n,
    snd (random_basis_loop fuel d s) = with_basis b n s.
Proof.
  induction fuel as [|fuel IH]; intros s.
  - exists (q (this s)), 0. simpl. unfold lift, with_basis. simpl.
    rewrite Nat.add_0_r. by destruct s as [[] ? ? ? ? ? ? ? ?].
  - destruct (basis_of_draw (randn (draws s) d)) as [[b stop]| | |] eqn:Hb.
    + rewrite (random_basis_loop_step _ _ _ _ _ Hb). destruct stop.
      * by exists b, 1.
      * destruct (IH (with_basis b 1 s)) as (b' & n & ->).
        exists b', (1 + n). apply with_basis_with_basis.
    + destruct (random_basis_loop_raise fuel d s) as (q0 & -> & _);
        [rewrite Hb; discriminate|]. by exists q0, 1.
    + destruct (random_basis_loop_raise fuel d s) as (q0 & -> & _);
        [rewrite Hb; discriminate|]. by exists q0, 1.
    + destruct (random_basis_loop_raise fuel d s) as (q0 & -> & _);
        [rewrite Hb; discriminate|]. by exists q0, 1.
Qed.

(** The loop is left at the first draw that passes. *)
Lemma random_basis_loop_exit (d : nat) :
  forall fuel s s1,
    random_basis_loop fuel d s = (Ret tt, s1) ->
    exists n b,
      n < fuel /\
      (forall m, m < n ->
         exists b', basis_of_draw (randn (draws s + m) d) = Ret (b', false)) /\
      basis_of_draw (randn (draws s + n) d) = Ret (b, true) /\
      s1 = with_basis b (S n) s.
Proof.
  induction fuel as [|fuel IH]; intros s s1 H; [discriminate|].
  destruct (basis_of_draw (randn (draws s) d)) as [[b stop]| | |] eqn:Hb.
  - rewrite (random_basis_loop_step _ _ _ _ _ Hb) in H. destruct stop.
    + inversion H. exists 0, b. rewrite Nat.add_0_r.
      repeat split; [lia| |done]. intros; lia.
    + destruct (IH _ _ H) as (n & b' & Hn & Hrej & Hacc & ->).
      exists (S n), b'. simpl in Hrej, Hacc.
      repeat split; [lia| | |].
      * intros [|m] Hm.
        -- exists b. by rewrite Nat.add_0_r.
        -- destruct (Hrej m) as [b'' Hb'']; [lia|]. exists b''.
           by replace (draws s + S m) with (draws s + 1 + m) by lia.
      * by replace (draws s + S n) with (draws s + 1 + n) by lia.
      * rewrite with_basis_with_basis. f_equal.
  - destruct (random_basis_loop_raise fuel d s) as (q0 & _ & Hne);
      [rewrite Hb; discriminate|]. rewrite H in Hne. by destruct Hne.
  - destruct (random_basis_loop_raise fuel d s) as (q0 & _ & Hne);
      [rewrite Hb; discriminate|]. rewrite H in Hne. by destruct Hne.
  - destruct (random_basis_loop_raise fuel d s) as (q0 & _ & Hne);
      [rewrite Hb; discriminate|]. rewrite H in Hne. by destruct Hne.
Qed.


(** ** Calls through the engine pointer *)

Lemma dom_insert_same (h : gmap nat Engine) p e e' :
  h !! p = Some e -> dom (<[p := e']> h) = dom h.
Proof.
  intros H. rewrite dom_insert_L.
  apply subseteq_union_1_L, singleton_subseteq_l, elem_of_dom. eauto.
Qed.

Ltac run_virtual :=
  cbv beta iota zeta delta [bind gets modify ret throw lift deref forget
    virtual_Train virtual_Search virtual_Search_self virtual_ReferenceSet
    virtual_Naive virtual_SingleMode on_leaf on_plain].

(** A virtual call leaves the model, the allocator and its log alone, and
    keeps the same addresses in use. *)
Lemma virtual_Train_frame p s :
  let s' := snd (virtual_Train p s) in
  this s' = this s /\ next s' = next s /\ allocs s' = allocs s /\
  draws s' = draws s /\ dom (heap s') = dom (heap s).
Proof.
  run_virtual. destruct (heap s !! p) as [[ty l|ty n]|] eqn:Hp; cbv beta iota.
  - destruct (NeighborSearchLeaf.Train _ _) as [r ts]. simpl.
    repeat split. by eapply dom_insert_same.
  - destruct (ns_Train_mat _ _ _) as [r n']. simpl.
    repeat split. by eapply dom_insert_same.
  - done.
Qed.

Lemma virtual_Search_frame p k s :
  let s' := snd (virtual_Search p k s) in
  this s' = this s /\ next s' = next s /\ allocs s' = allocs s /\
  draws s' = draws s /\ dom (heap s') = dom (heap s).
Proof.
  run_virtual. destruct (heap s !! p) as [[ty l|ty n]|] eqn:Hp; cbv beta iota.
  - destruct (NeighborSearchLeaf.Search _ _ _) as [r ts]. simpl.
    repeat split. by eapply dom_insert_same.
  - destruct (ns_Search_mat _ _ _ _) as [r [[n' nb] ds]]. simpl.
    repeat split. by eapply dom_insert_same.
  - done.
Qed.

Lemma virtual_Search_self_frame p k s :
  let s' := snd (virtual_Search_self p k s) in
  this s' = this s /\ next s' = next s /\ allocs s' = allocs s /\
  draws s' = draws s /\ dom (heap s') = dom (heap s).
Proof.
  run_virtual. destruct (heap s !! p) as [[ty l|ty n]|] eqn:Hp; cbv beta iota.
  - destruct (NeighborSearchLeaf.Search_self _ _ _) as [r ts]. simpl.
    repeat split. by eapply dom_insert_same.
  - destruct (ns_Search_self _ _ _) as [r [[n' nb] ds]]. simpl.
    repeat split. by eapply dom_insert_same.
  - done.
Qed.

(** Training through the pointer hands the engine the matrix in [data],
    and the object behind the pointer keeps its class. *)
Lemma virtual_Train_spec p e s :
  heap s !! p = Some e ->
  let s' := snd (virtual_Train p s) in
  (exists e', heap s' = <[p := e']> (heap s) /\ class_of e' = class_of e) /\
  (exists c rest, calls s' = calls s ++ c :: rest /\ call_data c = Some (data s)).
Proof.
  intros Hp. run_virtual. rewrite Hp. cbv beta iota.
  destruct e as [ty l|ty n]; cbv beta iota.
  - unfold NeighborSearchLeaf.Train.
    cbv beta iota zeta delta [bind gets modify NeighborSearchLeaf.new_referenceTree
      NeighborSearchLeaf.ns_Train_with_tree NeighborSearchLeaf.ns_Train_with_set
      NeighborSearchLeaf.assign_ns].
    simpl. destruct (naive (NeighborSearchLeaf.ns l)); simpl.
    + destruct (ns_Train_mat _ _ _) as [r n']. simpl.
      split; [eexists; split; reflexivity|].
      by exists (NsTrainMat ty (data s)), [].
    + destruct (build_tree ty (data s) (NeighborSearchLeaf.leafSize l)) as [tr pm].
      simpl. destruct (ns_Train_tree _ _ _) as [r n']. simpl.
      destruct r; simpl; (split; [eexists; split; reflexivity|]);
        exists (TreeBuilt ty (data s) (NeighborSearchLeaf.leafSize l)),
               [NsTrainTree ty tr]; by rewrite <- app_assoc.
  - destruct (ns_Train_mat _ _ _) as [r n']. simpl.
    split; [eexists; split; reflexivity|].
    by exists (NsTrainMat ty (data s)), [].
Qed.

(** ** BuildModel *)

Lemma BuildModel_eq fuel leafSize nv sm s :
  BuildModel fuel leafSize nv sm s
  = if randomBasis (this s) then
      match random_basis_loop fuel (n_rows (data s)) s with
      | (Ret _, s1) =>
        BuildModel_engine leafSize nv sm
          (set_data (mul (q (this s1)) (data s)) s1)
      | (Throw e, s1) => (Throw e, s1)
      | (Undefined, s1) => (Undefined, s1)
      | (OutOfFuel, s1) => (OutOfFuel, s1)
      end
    else BuildModel_engine leafSize nv sm s.
Proof.
  unfold BuildModel, BuildModel_engine.
  cbv beta iota zeta delta [bind gets modify ret lift].
  destruct (randomBasis (this s)); cbv beta iota; [|reflexivity].
  destruct (random_basis_loop fuel (n_rows (data s)) s) as [r s1] eqn:Hloop.
  destruct r as [[]| | |]; try reflexivity.
  destruct (random_basis_loop_exit _ _ _ _ Hloop)
    as (n & b & _ & _ & Hacc & ->).
  apply basis_of_draw_cols in Hacc. rewrite randn_n_rows in Hacc.
  unfold times. simpl. rewrite decide_True by exact Hacc. reflexivity.
Qed.

(** What BuildModel does with the engine: release the one it has, make one
    of the class the discriminant selects at a new address, point nSearch
    at it, train it on the matrix in [data]. *)
Lemma BuildModel_engine_spec leafSize nv sm s :
  let s' := snd (BuildModel_engine leafSize nv sm s) in
  let released :=
    match nSearch (this s) with Some p => [Delete p] | None => [] end in
  let kept :=
    match nSearch (this s) with Some p => delete p (heap s) | None => heap s end in
  this s' = mk (treeType (this s)) (randomBasis (this s)) (q (this s))
               (Some (next s)) /\
  next s' = S (next s) /\
  draws s' = draws s /\
  allocs s' = allocs s ++ released ++ [New (next s)] /\
  (exists e, heap s' = <[next s := e]> kept /\
             class_of e = class_for (treeType (this s))) /\
  (exists c rest, calls s' = calls s ++ c :: rest /\ call_data c = Some (data s)).
Proof.
  intros s' released kept.
  set (e0 := match treeType (this s) with
     | KD_TREE => NSLeaf KD_TREE (NeighborSearchLeaf.new KD_TREE nv sm leafSize)
     | COVER_TREE => NSType COVER_TREE (ns_new COVER_TREE nv sm)
     | R_TREE => NSType R_TREE (ns_new R_TREE nv sm)
     | R_STAR_TREE => NSType R_STAR_TREE (ns_new R_STAR_TREE nv sm)
     | BALL_TREE => NSLeaf BALL_TREE (NeighborSearchLeaf.new BALL_TREE nv sm leafSize)
     | X_TREE => NSType X_TREE (ns_new X_TREE nv sm)
     end).
  assert (Hclass : class_of e0 = class_for (treeType (this s))).
  { subst e0. by destruct (treeType (this s)). }
  set (s2 := mkStore (mk (treeType (this s)) (randomBasis (this s)) (q (this s))
                         (Some (next s)))
               (data s) (neighbors s) (distances s) (<[next s := e0]> kept)
               (S (next s)) (draws s) (allocs s ++ released ++ [New (next s)])
               (calls s)).
  assert (Hrun : BuildModel_engine leafSize nv sm s = virtual_Train (next s) s2).
  { unfold BuildModel_engine.
    cbv beta iota zeta delta [bind gets modify ret delete_nSearch delete_ new_
      set_nSearch set_this].
    subst s2 released kept e0.
    destruct (nSearch (this s)) as [p0|];
      destruct (treeType (this s)) eqn:Hty;
      cbv beta iota; simpl; rewrite ?Hty, <- ?app_assoc, ?app_nil_r;
      reflexivity. }
  subst s'. rewrite Hrun.
  destruct (virtual_Train_frame (next s) s2) as (Ht & Hn & Ha & Hd & _).
  destruct (virtual_Train_spec (next s) e0 s2) as [(e' & He' & Hc') Hcalls].
  { subst s2. simpl. apply lookup_insert_eq. }
  rewrite Ht, Hn, Ha, Hd. repeat split; try done.
  exists e'. rewrite He'. subst s2. simpl. rewrite insert_insert_eq.
  split; [done|congruence].
Qed.


(** ** Ownership of the engine *)

Lemma times_allocated_app p l l' :
  times_allocated p (l ++ l') = times_allocated p l + times_allocated p l'.
Proof. unfold times_allocated. by rewrite filter_app, length_app. Qed.

Lemma times_released_app p l l' :
  times_released p (l ++ l') = times_released p l + times_released p l'.
Proof. unfold times_released. by rewrite filter_app, length_app. Qed.

Lemma times_allocated_New p p' :
  times_allocated p [New p'] = if decide (p' = p) then 1 else 0.
Proof.
  unfold times_allocated. rewrite filter_cons. simpl.
  destruct (decide (p' = p)) as [Heq|Hne].
  - by rewrite decide_True by (by apply bool_decide_eq_true).
  - by rewrite decide_False by (by rewrite bool_decide_eq_true).
Qed.

Lemma times_allocated_Delete p p' : times_allocated p [Delete p'] = 0.
Proof. reflexivity. Qed.

Lemma times_released_Delete p p' :
  times_released p [Delete p'] = if decide (p' = p) then 1 else 0.
Proof.
  unfold times_released. rewrite filter_cons. simpl.
  destruct (decide (p' = p)) as [Heq|Hne].
  - by rewrite decide_True by (by apply bool_decide_eq_true).
  - by rewrite decide_False by (by rewrite bool_decide_eq_true).
Qed.

Lemma times_released_New p p' : times_released p [New p'] = 0.
Proof. reflexivity. Qed.

Lemma sound_fresh ty rb : sound (fresh_store (new ty rb)).
Proof.
  unfold sound. simpl. repeat split; try done.
Qed.

(** A step that keeps the pointer, the allocator and the addresses in use
    keeps the agreement. *)
Lemma sound_frame s s' :
  nSearch (this s') = nSearch (this s) -> next s' = next s ->
  allocs s' = allocs s -> dom (heap s') = dom (heap s) ->
  sound s -> sound s'.
Proof.
  unfold sound. intros -> -> -> ->. done.
Qed.

Ltac by_cases :=
  repeat match goal with
  | |- context [decide ?P] =>
    first [ rewrite (decide_True (P:=P)) by (intuition (congruence || lia))
          | rewrite (decide_False (P:=P)) by (intuition (congruence || lia)) ]
  end;
  try reflexivity; try lia.

Lemma sound_BuildModel_engine leafSize nv sm s :
  sound s -> sound (snd (BuildModel_engine leafSize nv sm s)).
Proof.
  intros (Hdom & Hlt & Hall & Hrel).
  destruct (BuildModel_engine_spec leafSize nv sm s)
    as (Ht & Hn & _ & Ha & (e & Hh & _) & _).
  unfold sound. rewrite Ht, Hn, Ha, Hh. simpl.
  repeat split.
  - rewrite dom_insert_L.
    destruct (nSearch (this s)) as [p0|].
    + rewrite dom_delete_L, Hdom. set_solver.
    + rewrite Hdom. set_solver.
  - intros p [= <-]. lia.
  - intros p. rewrite !times_allocated_app, Hall, times_allocated_New.
    assert (times_allocated p
              match nSearch (this s) with Some p0 => [Delete p0] | None => [] end
            = 0) as ->.
    { destruct (nSearch (this s)); [apply times_allocated_Delete|done]. }
    destruct (decide (p < next s)), (decide (p = next s)); by_cases.
  - intros p. rewrite !times_released_app, Hrel, times_released_New.
    destruct (nSearch (this s)) as [p0|] eqn:Hp0.
    + rewrite times_released_Delete. specialize (Hlt p0 eq_refl).
      destruct (decide (p < next s)), (decide (p = next s)), (decide (p = p0));
        by_cases.
    + simpl. destruct (decide (p < next s)), (decide (p = next s)); by_cases.
Qed.

Lemma sound_BuildModel fuel leafSize nv sm s :
  sound s -> sound (snd (BuildModel fuel leafSize nv sm s)).
Proof.
  intros Hs. rewrite BuildModel_eq.
  destruct (randomBasis (this s)); [|by apply sound_BuildModel_engine].
  destruct (random_basis_loop_frame (n_rows (data s)) fuel s) as (b & n & Hfr).
  destruct (random_basis_loop fuel (n_rows (data s)) s) as [r s1].
  simpl in Hfr. subst s1.
  assert (sound (with_basis b n s)) by (by eapply sound_frame; [..|exact Hs]).
  destruct r; try done.
  apply sound_BuildModel_engine. by eapply sound_frame; [..|exact Hs].
Qed.

Lemma sound_run_op op s : sound s -> sound (snd (run_op op s)).
Proof.
  intros Hs.
  assert (Hargs : forall m, sound (with_args m s)).
  { intros m. by eapply sound_frame; [..|exact Hs]. }
  destruct op as [fuel referenceSet leafSize nv sm|querySet k|k| | |]; simpl.
  - by apply sound_BuildModel.
  - unfold Search. cbv beta iota zeta delta [bind gets modify ret throw lift times].
    set (s0 := with_args querySet s).
    destruct (randomBasis (this s0)); simpl.
    + destruct (decide (n_cols (q (this s)) = n_rows querySet)); simpl;
        [|apply Hargs].
      assert (Hs1 : sound (set_data (mul (q (this s)) querySet) s0)).
      { by eapply sound_frame; [..|exact (Hargs querySet)]. }
      destruct (nSearch (this s)) as [p|] eqn:Hp; [|done].
      destruct (virtual_Search_frame p k (set_data (mul (q (this s)) querySet) s0))
        as (Ht & Hn & Ha & _ & Hd).
      eapply sound_frame; [..|exact Hs1]; by rewrite ?Ht.
    + destruct (nSearch (this s)) as [p|] eqn:Hp; [|apply Hargs].
      destruct (virtual_Search_frame p k s0) as (Ht & Hn & Ha & _ & Hd).
      eapply sound_frame; [..|exact (Hargs querySet)]; by rewrite ?Ht.
  - unfold Search_self. cbv beta iota zeta delta [bind gets modify ret throw].
    simpl. destruct (nSearch (this s)) as [p|] eqn:Hp; [|apply Hargs].
    destruct (virtual_Search_self_frame p k (with_args empty_mat s))
      as (Ht & Hn & Ha & _ & Hd).
    eapply sound_frame; [..|exact (Hargs empty_mat)]; by rewrite ?Ht.
  - unfold forget, Dataset, virtual_ReferenceSet, deref.
    cbv beta iota zeta delta [bind gets modify ret throw lift].
    destruct (nSearch (this s)) as [p|]; [|done].
    by destruct (heap s !! p).
  - unfold forget, Naive, virtual_Naive, deref.
    cbv beta iota zeta delta [bind gets modify ret throw lift].
    destruct (nSearch (this s)) as [p|]; [|done].
    by destruct (heap s !! p).
  - unfold forget, SingleMode, virtual_SingleMode, deref.
    cbv beta iota zeta delta [bind gets modify ret throw lift].
    destruct (nSearch (this s)) as [p|]; [|done].
    by destruct (heap s !! p).
Qed.

Lemma sound_run_ops ops : forall s, sound s -> sound (snd (run_ops ops s)).
Proof.
  induction ops as [|op ops IH]; intros s Hs; [done|].
  simpl. pose proof (sound_run_op op s Hs) as Hop.
  destruct (run_op op s) as [r s']. simpl in Hop.
  destruct (comes_back r); [by apply IH|done].
Qed.

(** C8: a call of BuildModel that gets past the random basis releases the
    engine the model has, if it has one, then allocates an engine of the
    class its discriminant selects and points nSearch at it; the destructor
    releases the engine the model has.  Over the life of a model
    (construction, any calls, destruction) no engine is released twice or
    released without having been allocated, and once the destructor has run
    every engine that was allocated has been released exactly once and none
    is left. *)
Theorem engine_released_exactly_once (ty : TreeTypes) (rb : bool) (ops : list Op) :
  (forall fuel leafSize nv sm s,
     let s' := snd (BuildModel fuel leafSize nv sm s) in
     (randomBasis (this s) = true ->
      fst (random_basis_loop fuel (n_rows (data s)) s) = Ret tt) ->
     allocs s' = allocs s
       ++ match nSearch (this s) with Some p => [Delete p] | None => [] end
       ++ [New (next s)] /\
     nSearch (this s') = Some (next s) /\
     exists e, heap s' !! next s = Some e /\
               class_of e = class_for (treeType (this s)))
  /\
  (forall s,
     allocs (snd (destroy s)) = allocs s
       ++ match nSearch (this s) with Some p => [Delete p] | None => [] end)
  /\
  (let s := snd (lifetime ty rb ops) in
   (forall p, times_released p (allocs s) <= times_allocated p (allocs s) <= 1) /\
   (fst (lifetime ty rb ops) = true ->
    heap s = ∅ /\
    forall p, times_released p (allocs s) = times_allocated p (allocs s))).
Proof.
  split; [|split].
  - intros fuel leafSize nv sm s s' Hloop.
    assert (Hgoal : forall s2,
      nSearch (this s2) = nSearch (this s) -> next s2 = next s ->
      allocs s2 = allocs s -> treeType (this s2) = treeType (this s) ->
      let s3 := snd (BuildModel_engine leafSize nv sm s2) in
      allocs s3 = allocs s
       ++ match nSearch (this s) with Some p => [Delete p] | None => [] end
       ++ [New (next s)] /\
      nSearch (this s3) = Some (next s) /\
      exists e, heap s3 !! next s = Some e /\
                class_of e = class_for (treeType (this s))).
    { intros s2 Hp Hn Ha Hty s3.
      destruct (BuildModel_engine_spec leafSize nv sm s2)
        as (Ht & _ & _ & Hal & (e & Hh & Hc) & _).
      fold s3 in Ht, Hal, Hh. rewrite Hal, Ht, Hh, Hp, Hn, Ha, Hty in *.
      repeat split. exists e. split; [apply lookup_insert_eq|done]. }
    subst s'. rewrite BuildModel_eq.
    destruct (randomBasis (this s)); [|by apply Hgoal].
    specialize (Hloop eq_refl).
    destruct (random_basis_loop_frame (n_rows (data s)) fuel s) as (b & n & Hfr).
    destruct (random_basis_loop fuel (n_rows (data s)) s) as [r s1].
    simpl in Hfr, Hloop. subst s1 r. by apply Hgoal.
  - intros s. unfold destroy, delete_nSearch, delete_.
    cbv beta iota zeta delta [bind gets modify ret].
    destruct (nSearch (this s)); simpl; by rewrite ?app_nil_r.
  - unfold lifetime.
    pose proof (sound_run_ops ops _ (sound_fresh ty rb)) as Hs.
    destruct (run_ops ops (fresh_store (new ty rb))) as [ok s]. simpl in Hs.
    destruct Hs as (Hdom & Hlt & Hall & Hrel).
    destruct ok; simpl.
    + unfold destroy, delete_nSearch, delete_.
      cbv beta iota zeta delta [bind gets modify ret].
      destruct (nSearch (this s)) as [p0|] eqn:Hp0; simpl.
      * specialize (Hlt p0 eq_refl).
        assert (Hcount : forall p,
          times_released p (allocs s ++ [Delete p0]) = times_allocated p (allocs s)).
        { intros p. rewrite times_released_app, Hrel, Hall, times_released_Delete.
          destruct (decide (p < next s)), (decide (p0 = p)); by_cases. }
        split.
        -- intros p. rewrite times_allocated_app, times_allocated_Delete, Hcount.
           rewrite Nat.add_0_r, Hall. case_decide; lia.
        -- intros _. split.
           ++ apply dom_empty_inv_L. rewrite dom_delete_L, Hdom. set_solver.
           ++ intros p. rewrite times_allocated_app, times_allocated_Delete, Hcount.
              lia.
      * split.
        -- intros p. rewrite Hrel, Hall.
           destruct (decide (p < next s)); by_cases.
        -- intros _. split; [by apply dom_empty_inv_L|].
           intros p. rewrite Hrel, Hall.
           destruct (decide (p < next s)); by_cases.
    + split; [|done]. intros p. rewrite Hrel, Hall.
      destruct (decide (p < next s)),
               (decide (p < next s /\ nSearch (this s) <> Some p)); lia.
Qed.

End ModelFacts.

(* ------------------------------------------------------------------ *)
(** * The properties at work on the small instance                     *)
(* ------------------------------------------------------------------ *)

Section Instances.
Import Example.

Local Existing Instance arma.
Local Existing Instance lib.
Local Existing Instance spill.

(** The dual-tree search of the three points: the tree reverses them, and
    each caller's column holds the answer for its own point. *)
Lemma Search_unmaps_query_columns_witness :
  exists s',
    NeighborSearchLeaf.Search KD_TREE 1 leaf_searching = (Ret tt, s') /\
    n_cols (NeighborSearchLeaf.neighbors s') = 3 /\
    forall i, i < 3 ->
      exists j, rev (seq 0 3) !! i = Some j /\
        cols (NeighborSearchLeaf.distances s') !! j
        = [[5%float]; [1%float]; [0%float]] !! i.
Proof.
  destruct (proj1 (Search_unmaps_query_columns KD_TREE 1 leaf_searching)
              eq_refl eq_refl _ _ _ eq_refl
              (Permutation_sym (Permutation_rev (seq 0 3))) eq_refl)
    as (s' & Hrun & _ & _ & _ & Hn & _ & _ & Hcols).
  exists s'. split; [exact Hrun|]. split; [exact Hn|].
  intros i Hi. destruct (Hcols i Hi) as (j & Hj & _ & Hd).
  exists j. split; [exact Hj|exact Hd].
Defined.

(** Training the wrapper on the three points. *)
Lemma Train_builds_and_owns_tree_witness :
  exists s',
    NeighborSearchLeaf.Train KD_TREE leaf_training = (Ret tt, s') /\
    treeOwner (NeighborSearchLeaf.ns (NeighborSearchLeaf.tr_this s')) = true /\
    oldFromNewReferences (NeighborSearchLeaf.ns (NeighborSearchLeaf.tr_this s'))
    = [2; 1; 0].
Proof.
  destruct (proj1 (Train_builds_and_owns_tree KD_TREE leaf_training)
              eq_refl _ eq_refl)
    as (s' & Hrun & _ & _ & Ho & Hp & _).
  exists s'. split; [exact Hrun|]. split; [exact Ho|exact Hp].
Defined.

(** A spill search with overlap 1/2 builds its query tree with overlap 0,
    from the query set or, in the self-search, from the reference set, and
    the caller gets what the engine found on that tree. *)
Lemma query_tree_has_no_overlap_witness :
  SpillSearch.calls (snd (SpillSearch.Search 1 spill_searching))
  = [SpillTreeBuilt points 0%float; SpSearchTree (points, 0%float) 1 false] /\
  SpillSearch.distances (snd (SpillSearch.Search 1 spill_searching))
  = mkMat 1 [[0%float]; [1%float]; [5%float]] /\
  SpillSearch.calls (snd (SpillSearch.Search_self 1 spill_searching))
  = [SpillTreeBuilt points 0%float; SpSearchTree (points, 0%float) 1 true].
Proof.
  pose proof (query_tree_has_no_overlap 1 spill_searching)
    as (_ & _ & Hq & Hself & _).
  split; [exact (f_equal (fun x => SpillSearch.calls (snd x))
                   (Hq eq_refl eq_refl))|].
  split; [exact (f_equal (fun x => SpillSearch.distances (snd x))
                   (Hq eq_refl eq_refl))|].
  exact (f_equal (fun x => SpillSearch.calls (snd x))
           (Hself eq_refl eq_refl eq_refl)).
Defined.

(** Overlap -1 is refused, overlap 1 is accepted. *)
Lemma constructors_check_tau_witness :
  fst (SpillSearch.new_from_set points false false (-1)%float 0%float tt)
  = Throw InvalidParameter /\
  fst (SpillSearch.new_from_set points false false 1%float 0%float tt)
  = Ret tt.
Proof.
  split.
  - pose proof (proj1 (constructors_check_tau points (points, 0%float)
                         false false (-1)%float 0%float tt) eq_refl)
      as (H & _).
    exact (f_equal fst H).
  - pose proof (proj2 (constructors_check_tau points (points, 0%float)
                         false false 1%float 0%float tt) eq_refl)
      as (_ & _ & _ & _ & H).
    exact (proj1 (H (fun _ _ => eq_refl) (fun _ _ => eq_refl))).
Defined.






(** A model built twice and searched once in between. *)
Lemma engine_released_exactly_once_witness :
  let life := NSModel.lifetime KD_TREE true
                [NSModel.DoBuildModel 5 points 20 false false;
                 NSModel.DoSearch points 1;
                 NSModel.DoBuildModel 5 points 20 true false] in
  NSModel.heap (snd life) = ∅ /\
  NSModel.times_released 0 (NSModel.allocs (snd life)) = 1 /\
  NSModel.times_released 1 (NSModel.allocs (snd life)) = 1.
Proof.
  intros life.
  pose proof (engine_released_exactly_once KD_TREE true
                [NSModel.DoBuildModel 5 points 20 false false;
                 NSModel.DoSearch points 1;
                 NSModel.DoBuildModel 5 points 20 true false])
    as (_ & _ & _ & Hdone).
  destruct (Hdone ltac:(vm_compute; reflexivity)) as [Hheap Hcount].
  split; [exact Hheap|].
  split; (etransitivity; [apply Hcount|vm_compute; reflexivity]).
Defined.

End Instances.

(* ------------------------------------------------------------------ *)
(** * More on NeighborSearchLeaf::Search                               *)
(* ------------------------------------------------------------------ *)

Section LeafSearchFacts.
Context `{Arma : Armadillo} `{Lib : NeighborSearchLib}.
Variable TreeType : TreeTypes.

Import NeighborSearchLeaf.

(** The dual-index branch, up to the unmapping loop. *)
Lemma Search_dual_eq (k : nat) (s : search_store) r ns' nOut dOut :
  naive (ns (this s)) = false -> singleMode (ns (this s)) = false ->
  ns_Search_tree TreeType
    (fst (build_tree TreeType (querySet s) (leafSize (this s)))) k
    (ns (this s), empty_mat, empty_mat) = (r, (ns', nOut, dOut)) ->
  let s0 := mkSearch (mk (leafSize (this s)) ns') (querySet s)
              (neighbors s) (distances s)
              (calls s ++ [TreeBuilt TreeType (querySet s) (leafSize (this s));
                 NsSearchTree TreeType
                   (fst (build_tree TreeType (querySet s) (leafSize (this s)))) k]) in
  Search TreeType k s
  = match r with
    | Ret _ =>
      unmap (snd (build_tree TreeType (querySet s) (leafSize (this s))))
            nOut dOut 0 (n_cols nOut)
            (mkSearch (this s0) (querySet s0)
               (set_size uninit_u (n_rows nOut) (n_cols nOut) (neighbors s))
               (set_size uninit_d (n_rows dOut) (n_cols dOut) (distances s))
               (calls s0))
    | Throw e => (Throw e, s0)
    | Undefined => (Undefined, s0)
    | OutOfFuel => (OutOfFuel, s0)
    end.
Proof.
  intros Hn Hs Hsearch s0. unfold Search.
  cbv beta iota zeta delta [bind gets modify new_queryTree ns_Search_with_tree].
  rewrite Hn, Hs. change (negb false && negb false) with true. cbv beta iota.
  subst s0.
  destruct (build_tree TreeType (querySet s) (leafSize (this s))) as [qt pm].
  simpl fst in *. simpl snd in *. simpl this. simpl after_move.
  rewrite Hsearch. cbv beta iota zeta.
  destruct r; simpl; rewrite <- ?app_assoc; reflexivity.
Qed.

(** X1: in dual-index mode, when the traversal does not return normally the
    call ends the same way and the caller's neighbors and distances are
    exactly as they were: the traversal wrote two local matrices. *)
Theorem Search_failure_keeps_outputs (k : nat) (s : search_store)
    r ns' nOut dOut :
  naive (ns (this s)) = false -> singleMode (ns (this s)) = false ->
  ns_Search_tree TreeType
    (fst (build_tree TreeType (querySet s) (leafSize (this s)))) k
    (ns (this s), empty_mat, empty_mat) = (r, (ns', nOut, dOut)) ->
  r <> Ret tt ->
  fst (Search TreeType k s) = r /\
  neighbors (snd (Search TreeType k s)) = neighbors s /\
  distances (snd (Search TreeType k s)) = distances s.
Proof.
  intros Hn Hs Hsearch Hr.
  rewrite (Search_dual_eq k s r ns' nOut dOut Hn Hs Hsearch).
  destruct r as [[]| | |]; [by destruct Hr|..]; by simpl.
Qed.

(** X2: in dual-index mode, with a bijective permutation map and one raw
    column per query, every column of the caller's two matrices is written:
    column j holds the raw column of the index that maps to j.  The result
    holds nothing of what the matrices held before or of the memory
    set_size obtained. *)
Theorem Search_writes_every_column (k : nat) (s : search_store)
    ns' nOut dOut :
  naive (ns (this s)) = false -> singleMode (ns (this s)) = false ->
  let oldFromNewQueries :=
    snd (build_tree TreeType (querySet s) (leafSize (this s))) in
  ns_Search_tree TreeType
    (fst (build_tree TreeType (querySet s) (leafSize (this s)))) k
    (ns (this s), empty_mat, empty_mat) = (Ret tt, (ns', nOut, dOut)) ->
  oldFromNewQueries ≡ₚ seq 0 (n_cols nOut) ->
  n_cols dOut = n_cols nOut ->
  exists s',
    Search TreeType k s = (Ret tt, s') /\
    n_cols (neighbors s') = n_cols nOut /\
    n_cols (distances s') = n_cols nOut /\
    forall j, j < n_cols nOut ->
      exists i c d,
        oldFromNewQueries !! i = Some j /\
        cols nOut !! i = Some c /\ cols (neighbors s') !! j = Some c /\
        cols dOut !! i = Some d /\ cols (distances s') !! j = Some d.
Proof.
  intros Hn Hs perm Hsearch Hperm Hcols.
  assert (Hlen : length perm = n_cols nOut).
  { rewrite Hperm. apply length_seq. }
  assert (Hnd : NoDup perm).
  { rewrite Hperm. apply NoDup_seq. }
  rewrite (Search_dual_eq k s _ ns' nOut dOut Hn Hs Hsearch).
  cbv beta iota zeta.
  destruct (n_cols_set_size uninit_u (n_rows nOut) (n_cols nOut) (neighbors s))
    as [Hc1 Hr1].
  destruct (n_cols_set_size uninit_d (n_rows dOut) (n_cols dOut) (distances s))
    as [Hc2 Hr2].
  match goal with |- context [unmap _ _ _ 0 _ ?st] => set (s0 := st) end.
  destruct (unmap_spec perm nOut dOut Hnd (n_cols nOut) 0 s0)
    as (s' & Hrun & _ & _ & _ & _ & _ & Hcn & Hcd & Hw & _).
  { simpl. lia. } { simpl. lia. } { simpl. lia. }
  { intros j Hj. rewrite Hperm in Hj. apply elem_of_seq in Hj.
    subst s0. simpl. rewrite Hc1, Hc2. lia. }
  exists s'. split; [exact Hrun|].
  subst s0. simpl in Hcn, Hcd. rewrite Hcn, Hcd, Hc1, Hc2.
  split; [done|]. split; [done|].
  intros j Hj.
  assert (Hin : j ∈ perm).
  { rewrite Hperm. apply elem_of_seq. lia. }
  apply list_elem_of_lookup in Hin as [i Hi].
  assert (Hi' : i < n_cols nOut).
  { rewrite <- Hlen. eapply lookup_lt_Some. exact Hi. }
  destruct (lookup_lt_is_Some_2 (cols nOut) i) as [c Hc]; [exact Hi'|].
  destruct (lookup_lt_is_Some_2 (cols dOut) i) as [d Hd];
    [unfold n_cols in Hcols; rewrite Hcols; exact Hi'|].
  destruct (Hw i j) as [Hwn Hwd]; [lia|exact Hi|].
  exists i, c, d. rewrite Hwn, Hwd. done.
Qed.

End LeafSearchFacts.

(* ------------------------------------------------------------------ *)
(** * More on SpillSearch                                              *)
(* ------------------------------------------------------------------ *)

Section SpillTrainFacts.
Context `{Lib : SpillLib}.

Import SpillSearch.

Ltac run_spill_all :=
  cbv beta iota zeta delta [bind gets modify ret throw lift log new_Tree
    on_engine on_engine_out check_tau Train_copy Train_move Train_tree
    Search Search_self Search_tree Naive SingleMode ReferenceSet];
  simpl.

Lemma check_tau_notneg (s : store) :
  (tau (this s) <? 0)%float = false -> check_tau s = (Ret tt, s).
Proof.
  intros H. unfold check_tau, bind, gets, ret. by rewrite H.
Qed.

(** No Train or Search overload assigns [tau]. *)
Lemma methods_keep_tau (k : nat) (t : SpillTree) (s : store) :
  tau (this (snd (Train_copy s))) = tau (this s) /\
  tau (this (snd (Train_move s))) = tau (this s) /\
  tau (this (snd (Train_tree t s))) = tau (this s) /\
  tau (this (snd (Search k s))) = tau (this s) /\
  tau (this (snd (Search_tree t k s))) = tau (this s) /\
  tau (this (snd (Search_self k s))) = tau (this s).
Proof.
  repeat split; run_spill_all.
  - destruct (naive (neighborSearch (this s))); simpl.
    + by destruct (sp_Train_mat _ _) as [r n'].
    + destruct (sp_Train_tree _ _) as [r n']. by destruct r.
  - destruct (naive (neighborSearch (this s))); simpl.
    + by destruct (sp_Train_mat _ _) as [r n'].
    + destruct (sp_Train_tree _ _) as [r n']. by destruct r.
  - by destruct (sp_Train_tree _ _) as [r n'].
  - destruct (naive (neighborSearch (this s)) || singleMode (neighborSearch (this s)));
      simpl.
    + by destruct (sp_Search_mat _ _ _) as [r [[n' nb] ds]].
    + by destruct (sp_Search_tree _ _ _ _) as [r [[n' nb] ds]].
  - by destruct (sp_Search_tree _ _ _ _) as [r [[n' nb] ds]].
  - destruct ((tau (this s) =? 0)%float || naive (neighborSearch (this s))
              || singleMode (neighborSearch (this s))); simpl.
    + by destruct (sp_Search_self _ _) as [r [[n' nb] ds]].
    + by destruct (sp_Search_tree _ _ _ _) as [r [[n' nb] ds]].
Qed.


End SpillTrainFacts.

Section SpillArchiveFacts.
Context `{Lib : SpillLib}.
Context {Archive : Type}.
Context `{ArEngine : !Archiver Archive (NeighborSearch SpillRest)}.
Context `{ArDouble : !Archiver Archive float}.

Import SpillSearch.

(** X3: an object that one of the four constructors returned has the overlap
    it was constructed with, and that overlap is not negative; no Train or
    Search overload changes it, and saving the object does not.  Loading is
    the one method that assigns it: when the archive gives an engine and an
    overlap, the object has exactly these afterwards, without the check of
    the constructors, whatever the overlap is. *)
Theorem tau_changes_only_by_loading (referenceSetIn : mat)
    (referenceTree : SpillTree) (nv sm : bool) (t0 epsilon : float)
    (metric : MetricType) (k : nat) (t : SpillTree) :
  (forall made,
     made = new_from_set referenceSetIn nv sm t0 epsilon metric \/
     made = new_from_moved_set referenceSetIn nv sm t0 epsilon metric \/
     made = new_from_tree referenceTree sm t0 epsilon metric \/
     made = new_empty nv sm t0 epsilon metric ->
     fst made = Ret tt ->
     tau (this (snd made)) = t0 /\ (t0 <? 0)%float = false)
  /\
  (forall s,
     tau (this (snd (Train_copy s))) = tau (this s) /\
     tau (this (snd (Train_move s))) = tau (this s) /\
     tau (this (snd (Train_tree t s))) = tau (this s) /\
     tau (this (snd (Search k s))) = tau (this s) /\
     tau (this (snd (Search_tree t k s))) = tau (this s) /\
     tau (this (snd (Search_self k s))) = tau (this s))
  /\
  (forall (ar : Archive) s, this (snd (Serialize false ar s)) = this s)
  /\
  (forall (ar ar1 ar2 : Archive) s n x,
     load_nvp (A := NeighborSearch SpillRest) "neighborSearch" ar = (Ret n, ar1) ->
     load_nvp (A := float) "tau" ar1 = (Ret x, ar2) ->
     Serialize true ar s
     = (Ret ar2, mkStore (mk n x) (data s) (neighbors s) (distances s) (calls s))).
Proof.
  split; [|split; [|split]].
  - intros made Hmade Hret.
    destruct (t0 <? 0)%float eqn:Hneg.
    + exfalso.
      destruct Hmade as [-> | [-> | [-> | ->]]];
        unfold new_from_set, new_from_moved_set, new_from_tree, new_empty,
               bind in Hret;
        rewrite check_tau_neg in Hret by exact Hneg; discriminate.
    + split; [|reflexivity].
      destruct Hmade as [-> | [-> | [-> | ->]]];
        unfold new_from_set, new_from_moved_set, new_from_tree, new_empty,
               bind;
        rewrite check_tau_notneg by exact Hneg.
      * apply (methods_keep_tau k t).
      * apply (methods_keep_tau k t).
      * apply (methods_keep_tau k referenceTree).
      * reflexivity.
  - intros s. apply methods_keep_tau.
  - intros ar s. unfold Serialize, archive_member.
    cbv beta iota zeta delta [bind gets modify ret library].
    destruct (save_nvp "neighborSearch" (neighborSearch (this s)) ar)
      as [[[]| | |] ar1]; try reflexivity.
    by destruct (save_nvp "tau" (tau (this s)) ar1) as [[[]| | |] ar2].
  - intros ar ar1 ar2 s n x Hn Hx. unfold Serialize, archive_member.
    cbv beta iota zeta delta [bind gets modify ret library].
    rewrite Hn. cbv beta iota. rewrite Hx. reflexivity.
Qed.

End SpillArchiveFacts.

(* ------------------------------------------------------------------ *)
(** * More on NSModel                                                  *)
(* ------------------------------------------------------------------ *)

Section LeafCallFacts.
Context `{Arma : Armadillo} `{Lib : NeighborSearchLib}.
Variable TreeType : TreeTypes.

Import NeighborSearchLeaf.

Lemma unmap_calls (perm : list nat) (nOut : umat) (dOut : mat) :
  forall todo i s,
    calls (snd (unmap perm nOut dOut i todo s)) = calls s /\
    querySet (snd (unmap perm nOut dOut i todo s)) = querySet s.
Proof.
  induction todo as [|todo IH]; intros i s; [done|].
  simpl unmap.
  cbv beta iota delta [bind lift gets modify vector_at col
    assign_neighbors_col assign_distances_col set_col].
  destruct (perm !! i) as [j|]; [|done].
  destruct (cols nOut !! i) as [c|]; [|done].
  destruct (decide (j < n_cols (neighbors s))); [|done].
  destruct (cols dOut !! i) as [d|]; [|done].
  cbv beta iota. simpl distances.
  destruct (decide (j < n_cols (distances s))); [|done].
  cbv beta iota. destruct (IH (S i)
    (set_distances (mkMat (n_rows (distances s)) (<[j := d]> (cols (distances s))))
       (set_neighbors (mkMat (n_rows (neighbors s)) (<[j := c]> (cols (neighbors s))))
          s))) as [H1 H2].
  split; [exact H1|exact H2].
Qed.

(** The first thing Search asks of the code outside is done on the query
    set as the caller passed it, and the query set is not changed. *)
Lemma Search_hands_querySet (k : nat) (s : search_store) :
  (exists c rest,
     calls (snd (Search TreeType k s)) = calls s ++ c :: rest /\
     NSModel.call_data c = Some (querySet s)) /\
  querySet (snd (Search TreeType k s)) = querySet s.
Proof.
  unfold Search.
  cbv beta iota zeta delta [bind gets modify new_queryTree ns_Search_with_tree
    ns_Search_with_set].
  destruct (negb (naive (ns (this s))) && negb (singleMode (ns (this s))));
    cbv beta iota.
  - destruct (build_tree TreeType (querySet s) (leafSize (this s))) as [qt pm].
    cbv beta iota. simpl this. simpl after_move.
    destruct (ns_Search_tree TreeType qt k (ns (this s), empty_mat, empty_mat))
      as [r [[n' nOut] dOut]].
    destruct r; cbv beta iota; simpl.
    + match goal with |- context [unmap _ _ _ 0 _ ?st] =>
        destruct (unmap_calls pm nOut dOut (n_cols nOut) 0 st) as [-> ->] end.
      simpl. split; [|done].
      exists (TreeBuilt TreeType (querySet s) (leafSize (this s))),
             [NsSearchTree TreeType qt k].
      by rewrite <- app_assoc.
    + split; [|done].
      exists (TreeBuilt TreeType (querySet s) (leafSize (this s))),
             [NsSearchTree TreeType qt k].
      by rewrite <- app_assoc.
    + split; [|done].
      exists (TreeBuilt TreeType (querySet s) (leafSize (this s))),
             [NsSearchTree TreeType qt k].
      by rewrite <- app_assoc.
    + split; [|done].
      exists (TreeBuilt TreeType (querySet s) (leafSize (this s))),
             [NsSearchTree TreeType qt k].
      by rewrite <- app_assoc.
  - destruct (ns_Search_mat TreeType (querySet s) k
                (ns (this s), neighbors s, distances s)) as [r [[n' nb] ds]].
    simpl. split; [|done].
    by exists (NsSearchMat TreeType (querySet s) k), [].
Qed.

End LeafCallFacts.

Section ModelUseFacts.
Context `{Arma : Armadillo} `{Lib : NeighborSearchLib}.

Import NSModel.

Ltac run_use :=
  cbv beta iota zeta delta [bind gets modify ret throw lift deref forget
    Search Search_self Dataset Naive SingleMode
    virtual_Search virtual_Search_self virtual_ReferenceSet
    virtual_Naive virtual_SingleMode on_leaf on_plain].

(** X5: no search and no accessor changes the discriminant, the basis or
    the engine pointer of the model, allocates or releases an engine, draws
    a random matrix, or changes which addresses are in use. *)
Theorem searches_keep_the_model (k : nat) (s : store) :
  Forall (fun s' =>
            this s' = this s /\ next s' = next s /\ allocs s' = allocs s /\
            draws s' = draws s /\ dom (heap s') = dom (heap s))
         [snd (Search k s); snd (Search_self k s); snd (Dataset s);
          snd (Naive s); snd (SingleMode s)].
Proof.
  repeat apply Forall_cons_2; [..|apply Forall_nil_2].
  - unfold Search. cbv beta iota zeta delta [bind gets modify ret throw lift times].
    destruct (randomBasis (this s)); cbv beta iota; simpl.
    + destruct (decide (n_cols (q (this s)) = n_rows (data s))); [|done].
      simpl. destruct (nSearch (this s)) as [p|]; [|done].
      destruct (virtual_Search_frame p k (set_data (mul (q (this s)) (data s)) s))
        as (-> & -> & -> & -> & ->). done.
    + destruct (nSearch (this s)) as [p|]; [|done].
      apply virtual_Search_frame.
  - unfold Search_self. cbv beta iota zeta delta [bind gets modify ret throw].
    destruct (nSearch (this s)) as [p|]; [|done].
    apply virtual_Search_self_frame.
  - run_use. destruct (nSearch (this s)) as [p|]; [|done].
    by destruct (heap s !! p).
  - run_use. destruct (nSearch (this s)) as [p|]; [|done].
    by destruct (heap s !! p).
  - run_use. destruct (nSearch (this s)) as [p|]; [|done].
    by destruct (heap s !! p).
Qed.

(** What the engine is asked when it is searched through the pointer. *)
Lemma virtual_Search_hands_data p e k s :
  heap s !! p = Some e ->
  data (snd (virtual_Search p k s)) = data s /\
  exists c rest,
    calls (snd (virtual_Search p k s)) = calls s ++ c :: rest /\
    call_data c = Some (data s).
Proof.
  intros Hp. unfold virtual_Search.
  cbv beta iota zeta delta [bind gets deref ret lift]. rewrite Hp.
  cbv beta iota. destruct e as [ty l|ty n]; cbv beta iota.
  - unfold on_leaf.
    pose proof (Search_hands_querySet ty k
      (NeighborSearchLeaf.mkSearch l (data s) (neighbors s) (distances s) (calls s)))
      as [(c & rest & Hc & Hd) Hq].
    destruct (NeighborSearchLeaf.Search ty k _) as [r ss]. simpl in *.
    split; [exact Hq|]. by exists c, rest.
  - unfold on_plain.
    destruct (ns_Search_mat ty (data s) k (n, neighbors s, distances s))
      as [r [[n' nb] ds]]. simpl.
    split; [done|]. by exists (NsSearchMat ty (data s) k), [].
Qed.

(** X6: on a model with an engine, Search with a query set first replaces
    the caller's query matrix by the basis times the query set when
    randomBasis is set.  When that product is not defined the call ends with
    its size error and nothing has changed.  Otherwise the call is the
    search of the engine on the mapped matrix (the query set itself without
    randomBasis): for an NSType engine the engine's search on that matrix
    and the caller's two output matrices, for an NSLeaf engine the search of
    the leaf wrapper on them; the result, the outputs and the state of the
    engine are those of that search, and the caller's query matrix holds
    the mapped matrix afterwards, however the search ends. *)
Theorem Search_maps_query_into_basis (k : nat) (s : store) p e :
  nSearch (this s) = Some p -> heap s !! p = Some e ->
  (randomBasis (this s) = true -> n_cols (q (this s)) <> n_rows (data s) ->
   Search k s = (Throw (IncompatibleSizes (q (this s)) (data s)), s))
  /\
  ((randomBasis (this s) = true -> n_cols (q (this s)) = n_rows (data s)) ->
   let mapped := if randomBasis (this s) then mul (q (this s)) (data s)
                 else data s in
   data (snd (Search k s)) = mapped /\
   (exists c rest,
      calls (snd (Search k s)) = calls s ++ c :: rest /\
      call_data c = Some mapped) /\
   match e with
   | NSType ty n =>
     let r := ns_Search_mat ty mapped k (n, neighbors s, distances s) in
     Search k s
     = (fst r,
        mkStore (this s) mapped (snd (fst (snd r))) (snd (snd r))
                (<[p := NSType ty (fst (fst (snd r)))]> (heap s))
                (next s) (draws s) (allocs s)
                (calls s ++ [NsSearchMat ty mapped k]))
   | NSLeaf ty l =>
     let r := NeighborSearchLeaf.Search ty k
                (NeighborSearchLeaf.mkSearch l mapped (neighbors s)
                   (distances s) (calls s)) in
     Search k s
     = (fst r,
        mkStore (this s) mapped
                (NeighborSearchLeaf.neighbors (snd r))
                (NeighborSearchLeaf.distances (snd r))
                (<[p := NSLeaf ty (NeighborSearchLeaf.this (snd r))]> (heap s))
                (next s) (draws s) (allocs s)
                (NeighborSearchLeaf.calls (snd r)))
   end).
Proof.
  intros Hp He. split.
  - intros Hrb Hne. unfold Search.
    cbv beta iota zeta delta [bind gets modify ret throw lift times].
    rewrite Hrb. by rewrite decide_False by exact Hne.
  - intros Hsz mapped.
    assert (Hrun : Search k s = virtual_Search p k (set_data mapped s)).
    { subst mapped. unfold Search.
      cbv beta iota zeta delta [bind gets modify ret throw lift times].
      destruct (randomBasis (this s)); cbv beta iota.
      - rewrite decide_True by (by apply Hsz). simpl. by rewrite Hp.
      - rewrite Hp. by destruct s. }
    destruct (virtual_Search_hands_data p e k (set_data mapped s) He)
      as [Hdata Hcalls].
    rewrite Hrun. split; [exact Hdata|]. split; [exact Hcalls|].
    unfold virtual_Search.
    cbv beta iota zeta delta [bind gets deref ret lift].
    change (heap (set_data mapped s)) with (heap s).
    rewrite He. cbv beta iota. destruct e as [ty l|ty n]; cbv beta iota.
    + unfold on_leaf. simpl.
      pose proof (Search_hands_querySet ty k
        (NeighborSearchLeaf.mkSearch l mapped (neighbors s) (distances s)
           (calls s))) as [_ Hq].
      destruct (NeighborSearchLeaf.Search ty k _) as [r ss]. simpl in *.
      by rewrite Hq.
    + unfold on_plain. simpl.
      by destruct (ns_Search_mat ty mapped k (n, neighbors s, distances s))
        as [r [[n' nb] ds]].
Qed.

(** X7: once BuildModel is past the random basis, the model has an engine
    whether or not training it threw: Dataset, Naive and SingleMode return
    what that engine holds instead of the not-initialized error, and the
    self-search is the self-search of that engine. *)
Theorem BuildModel_initializes (fuel leafSize : nat) (nv sm : bool) (s : store) :
  (randomBasis (this s) = true ->
   fst (random_basis_loop fuel (n_rows (data s)) s) = Ret tt) ->
  let s' := snd (BuildModel fuel leafSize nv sm s) in
  exists e,
    nSearch (this s') = Some (next s) /\
    heap s' !! next s = Some e /\
    fst (Dataset s') = Ret (ns_ReferenceSet (fst (engine_ns e)) (snd (engine_ns e))) /\
    fst (Naive s') = Ret (naive (snd (engine_ns e))) /\
    fst (SingleMode s') = Ret (singleMode (snd (engine_ns e))) /\
    forall k, Search_self k s' = virtual_Search_self (next s) k s'.
Proof.
  intros Hloop s'.
  assert (Hgoal : forall s2, next s2 = next s ->
    let s3 := snd (BuildModel_engine leafSize nv sm s2) in
    exists e, nSearch (this s3) = Some (next s) /\ heap s3 !! next s = Some e).
  { intros s2 Hn s3.
    destruct (BuildModel_engine_spec leafSize nv sm s2)
      as (Ht & _ & _ & _ & (e & Hh & _) & _).
    fold s3 in Ht, Hh. exists e. rewrite Ht, Hh, Hn. simpl.
    split; [done|apply lookup_insert_eq]. }
  assert (Hengine : exists e,
    nSearch (this s') = Some (next s) /\ heap s' !! next s = Some e).
  { subst s'. rewrite BuildModel_eq.
    destruct (randomBasis (this s)); [|by apply Hgoal].
    specialize (Hloop eq_refl).
    destruct (random_basis_loop_frame (n_rows (data s)) fuel s) as (b & n & Hfr).
    destruct (random_basis_loop fuel (n_rows (data s)) s) as [r s1].
    simpl in Hfr, Hloop. subst s1 r. by apply Hgoal. }
  destruct Hengine as (e & Hp & He). exists e.
  split; [exact Hp|]. split; [exact He|].
  repeat split; run_use; rewrite ?Hp; cbv beta iota; rewrite ?He; reflexivity.
Qed.


(** X9: the leaf size matters for kd-trees and ball trees only.  For the
    other four tree types BuildModel does the same whatever leaf size it is
    given; for kd-trees and ball trees outside naive mode the tree of the
    reference set is built with the leaf size given. *)
Theorem leafSize_is_for_leaf_wrappers (fuel l1 l2 : nat) (nv sm : bool)
    (s : store) :
  (fst (class_for (treeType (this s))) = IsNSType ->
   BuildModel fuel l1 nv sm s = BuildModel fuel l2 nv sm s)
  /\
  (fst (class_for (treeType (this s))) = IsNSLeaf ->
   randomBasis (this s) = false ->
   naive (ns_new (treeType (this s)) nv sm) = false ->
   exists rest,
     calls (snd (BuildModel fuel l1 nv sm s))
     = calls s ++ TreeBuilt (treeType (this s)) (data s) l1 :: rest).
Proof.
  split.
  - intros Hc. rewrite !BuildModel_eq.
    assert (Heng : forall s2, treeType (this s2) = treeType (this s) ->
      BuildModel_engine l1 nv sm s2 = BuildModel_engine l2 nv sm s2).
    { intros s2 Hty. unfold BuildModel_engine.
      cbv beta iota zeta delta [bind gets]. rewrite Hty.
      destruct (treeType (this s)); try discriminate; reflexivity. }
    destruct (randomBasis (this s)); [|by apply Heng].
    destruct (random_basis_loop_frame (n_rows (data s)) fuel s) as (b & n & Hfr).
    destruct (random_basis_loop fuel (n_rows (data s)) s) as [r s1].
    simpl in Hfr. subst s1. destruct r; try reflexivity. by apply Heng.
  - intros Hc Hrb Hnv. rewrite BuildModel_eq, Hrb.
    unfold BuildModel_engine.
    cbv beta iota zeta delta [bind gets modify ret delete_nSearch delete_ new_
      set_nSearch set_this deref lift virtual_Train].
    destruct (nSearch (this s)) as [p0|];
      destruct (treeType (this s)) eqn:Hty; try discriminate;
      cbv beta iota; simpl; rewrite lookup_insert_eq; cbv beta iota;
      unfold NeighborSearchLeaf.Train;
      cbv beta iota zeta delta [bind gets modify
        NeighborSearchLeaf.new_referenceTree
        NeighborSearchLeaf.ns_Train_with_tree NeighborSearchLeaf.assign_ns];
      simpl; rewrite Hnv; simpl;
      destruct (build_tree _ (data s) l1) as [tr pm]; simpl;
      destruct (ns_Train_tree _ tr _) as [r n']; destruct r; simpl;
      eexists; rewrite <- app_assoc; reflexivity.
Qed.

(** X10: TreeName gives the six tree types six different names, and the
    archive names of the nearest- and furthest-neighbour models differ. *)
Theorem names_tell_models_apart (o1 o2 : t) (sp1 sp2 : SortPolicy) :
  (TreeName o1 = TreeName o2 -> treeType o1 = treeType o2) /\
  (Name sp1 = Name sp2 -> sp1 = sp2).
Proof.
  split.
  - unfold TreeName. destruct (treeType o1), (treeType o2);
      intros H; try reflexivity; discriminate H.
  - destruct sp1, sp2; intros H; try reflexivity; discriminate H.
Qed.

End ModelUseFacts.

Section SerializeFacts.
Context `{Arma : Armadillo} `{Lib : NeighborSearchLib}.
Context {Archive : Type}.
Context `{ArTree : !Archiver Archive TreeTypes}.
Context `{ArBool : !Archiver Archive bool}.
Context `{ArMat : !Archiver Archive mat}.
Context `{ArPtr : !NSModel.PointerArchiver Archive}.

Import NSModel.

Ltac run_serialize :=
  unfold Serialize, archive_member, archive_pointer, c_cast;
  cbv beta iota zeta delta [bind gets modify ret library delete_nSearch
    delete_ new_ set_nSearch set_treeType set_randomBasis set_q set_this].

(** Saving leaves the model and the free store as they are, however the
    library answers. *)
Lemma Serialize_save_frame (sp : SortPolicy) (ar : Archive) (s : store) :
  snd (Serialize sp false ar s) = s.
Proof.
  run_serialize.
  destruct (save_nvp "treeType" (treeType (this s)) ar) as [[[]| | |] ar1];
    try reflexivity.
  destruct (save_nvp "randomBasis" (randomBasis (this s)) ar1)
    as [[[]| | |] ar2]; try reflexivity.
  destruct (save_nvp "q" (q (this s)) ar2) as [[[]| | |] ar3]; try reflexivity.
  cbv beta iota.
  destruct (save_pointer _ _ _ ar3) as [[[]| | |] ar4]; try reflexivity.
  by destruct s as [[] ? ? ? ? ? ? ? ?].
Qed.


(** Loading, when the library gives the three members and an engine (or a
    null pointer): the engine the model has is released, the members are
    those of the archive, and the loaded engine is at a new address. *)
Lemma Serialize_load_eq (sp : SortPolicy) (ar ar1 ar2 ar3 ar4 : Archive)
    (s : store) (ty : TreeTypes) (rb : bool) (b : mat) (o : option Engine) :
  load_nvp (A := TreeTypes) "treeType" ar = (Ret ty, ar1) ->
  load_nvp (A := bool) "randomBasis" ar1 = (Ret rb, ar2) ->
  load_nvp (A := mat) "q" ar2 = (Ret b, ar3) ->
  load_pointer (class_for ty) (Name sp) ar3 = (Ret o, ar4) ->
  let released :=
    match nSearch (this s) with Some p => [Delete p] | None => [] end in
  let kept :=
    match nSearch (this s) with Some p => delete p (heap s) | None => heap s end in
  Serialize sp true ar s
  = (Ret ar4,
     match o with
     | Some e =>
       mkStore (mk ty rb b (Some (next s)))
               (data s) (neighbors s) (distances s) (<[next s := e]> kept)
               (S (next s)) (draws s) (allocs s ++ released ++ [New (next s)])
               (calls s)
     | None =>
       mkStore (mk ty rb b None)
               (data s) (neighbors s) (distances s) kept
               (next s) (draws s) (allocs s ++ released) (calls s)
     end).
Proof.
  intros H1 H2 H3 H4 released kept. subst released kept. run_serialize.
  rewrite H1. cbv beta iota. rewrite H2. cbv beta iota. rewrite H3.
  cbv beta iota. simpl.
  destruct (nSearch (this s)) as [p0|]; simpl; rewrite H4; cbv beta iota;
    destruct o as [e|]; simpl; rewrite <- ?app_assoc, ?app_nil_r; reflexivity.
Qed.

(** Where a load can stop, and what it leaves: at a member, with the engine
    and the free store untouched; at the engine pointer or with a null
    pointer loaded, with the old engine released and none in its place; or
    with an engine of the class the loaded discriminant selects at a new
    address. *)
Lemma Serialize_load_cases (sp : SortPolicy) (ar : Archive) (s : store) :
  let released :=
    match nSearch (this s) with Some p => [Delete p] | None => [] end in
  let kept :=
    match nSearch (this s) with Some p => delete p (heap s) | None => heap s end in
  let out := Serialize sp true ar s in
  ((forall a, fst out <> Ret a) /\
   exists o', nSearch o' = nSearch (this s) /\ snd out = set_this o' s)
  \/
  (exists o', nSearch o' = None /\
     snd out = mkStore o' (data s) (neighbors s) (distances s) kept
                       (next s) (draws s) (allocs s ++ released) (calls s))
  \/
  (exists o' e ar4,
     fst out = Ret ar4 /\ nSearch o' = Some (next s) /\
     class_of e = class_for (treeType o') /\
     snd out = mkStore o' (data s) (neighbors s) (distances s)
                       (<[next s := e]> kept) (S (next s)) (draws s)
                       (allocs s ++ released ++ [New (next s)]) (calls s)).
Proof.
  intros released kept out. subst released kept out. run_serialize.
  assert (Hstay : forall o', set_this o' s
    = mkStore o' (data s) (neighbors s) (distances s) (heap s) (next s)
              (draws s) (allocs s) (calls s)) by done.
  destruct (load_nvp (A := TreeTypes) "treeType" ar) as [[ty| | |] ar1];
    cbv beta iota;
    [|left; (split; [discriminate|]); exists (this s); split; [done|];
      by destruct s..].
  destruct (load_nvp (A := bool) "randomBasis" ar1) as [[rb| | |] ar2];
    cbv beta iota;
    [|left; (split; [discriminate|]);
      exists (mk ty (randomBasis (this s)) (q (this s)) (nSearch (this s)));
      split; done..].
  destruct (load_nvp (A := mat) "q" ar2) as [[b| | |] ar3];
    cbv beta iota;
    [|left; (split; [discriminate|]);
      exists (mk ty rb (q (this s)) (nSearch (this s)));
      split; done..].
  right. simpl.
  destruct (nSearch (this s)) as [p0|]; simpl;
    destruct (load_pointer (class_for ty) (Name sp) ar3)
      as [[[e|]| | |] ar4] eqn:Hload; cbv beta iota; simpl;
    try (left; exists (mk ty rb b None); split; [done|];
         by rewrite ?app_nil_r);
    right; exists (mk ty rb b (Some (next s))), e, ar4;
    (split; [done|]); (split; [done|]);
    (split; [exact (load_pointer_class _ _ _ _ _ Hload)|]);
    by rewrite <- ?app_assoc, ?app_nil_r.
Qed.



Ltac by_cases' :=
  repeat match goal with
  | |- context [decide ?P] =>
    first [ rewrite (decide_True (P:=P)) by (intuition (congruence || lia))
          | rewrite (decide_False (P:=P)) by (intuition (congruence || lia)) ]
  end;
  try reflexivity; try lia.

(** X12: Serialize keeps the model and the free store in agreement, saving
    and loading, wherever the call ends: loading into a model that has an
    engine releases that engine once before it makes the new one, so no
    engine is leaked or released twice. *)
Theorem Serialize_keeps_ownership (sp : SortPolicy) (loading : bool)
    (ar : Archive) (s : store) :
  sound s ->
  sound (snd (Serialize sp loading ar s)) /\
  (loading = true ->
   forall ty rb b o ar1 ar2 ar3 ar4,
     load_nvp (A := TreeTypes) "treeType" ar = (Ret ty, ar1) ->
     load_nvp (A := bool) "randomBasis" ar1 = (Ret rb, ar2) ->
     load_nvp (A := mat) "q" ar2 = (Ret b, ar3) ->
     load_pointer (class_for ty) (Name sp) ar3 = (Ret o, ar4) ->
     allocs (snd (Serialize sp loading ar s))
     = allocs s
       ++ match nSearch (this s) with Some p => [Delete p] | None => [] end
       ++ match o with Some _ => [New (next s)] | None => [] end).
Proof.
  intros Hs. pose proof Hs as (Hdom & Hlt & Hall & Hrel).
  destruct loading; [|by rewrite Serialize_save_frame].
  split.
  - assert (Hz : forall p,
      times_allocated p
        match nSearch (this s) with Some p0 => [Delete p0] | None => [] end = 0).
    { intros p. destruct (nSearch (this s)); [apply times_allocated_Delete|done]. }
    destruct (Serialize_load_cases sp ar s)
      as [[_ (o' & Hp & ->)]|[(o' & Hnull & ->)|(o' & e & ar4 & _ & Hp & _ & ->)]].
    + by eapply sound_frame; [..|exact Hs].
    + unfold sound. simpl. rewrite Hnull. repeat split.
      * destruct (nSearch (this s)) as [p0|].
        -- rewrite dom_delete_L, Hdom. set_solver.
        -- exact Hdom.
      * intros p Hp. discriminate.
      * intros p. rewrite times_allocated_app, Hall, Hz. lia.
      * intros p. rewrite times_released_app, Hrel.
        destruct (nSearch (this s)) as [p0|] eqn:Hp0.
        -- rewrite times_released_Delete. specialize (Hlt p0 eq_refl).
           destruct (decide (p < next s)), (decide (p = p0)); by_cases'.
        -- simpl. destruct (decide (p < next s)); by_cases'.
    + unfold sound. simpl. rewrite Hp. repeat split.
      * rewrite dom_insert_L. destruct (nSearch (this s)) as [p0|].
        -- rewrite dom_delete_L, Hdom. set_solver.
        -- rewrite Hdom. set_solver.
      * intros p [= <-]. lia.
      * intros p. rewrite !times_allocated_app, Hall, Hz, times_allocated_New.
        destruct (decide (p < next s)), (decide (p = next s)); by_cases'.
      * intros p. rewrite !times_released_app, Hrel, times_released_New.
        destruct (nSearch (this s)) as [p0|] eqn:Hp0.
        -- rewrite times_released_Delete. specialize (Hlt p0 eq_refl).
           destruct (decide (p < next s)), (decide (p = next s)), (decide (p = p0));
             by_cases'.
        -- simpl. destruct (decide (p < next s)), (decide (p = next s)); by_cases'.
  - intros _ ty rb b o ar1 ar2 ar3 ar4 H1 H2 H3 H4.
    rewrite (Serialize_load_eq sp _ _ _ _ _ s _ _ _ _ H1 H2 H3 H4).
    destruct o; simpl; by rewrite ?app_nil_r.
Qed.

End SerializeFacts.

Section EdgeFacts.
Context `{Arma : Armadillo} `{Lib : NeighborSearchLib}.

(** X13: on a model without engine the self-search and the accessors fail
    and leave the model, the caller's matrices and the free store exactly as
    they were; so does Search with a query set when randomBasis is off. *)
Theorem failed_calls_change_nothing (k : nat) (s : NSModel.store) :
  NSModel.nSearch (NSModel.this s) = None ->
  NSModel.Search_self k s = (Throw ModelNotInitialized, s) /\
  NSModel.Dataset s = (Throw ModelNotInitialized, s) /\
  NSModel.Naive s = (Throw ModelNotInitialized, s) /\
  NSModel.SingleMode s = (Throw ModelNotInitialized, s) /\
  (NSModel.randomBasis (NSModel.this s) = false ->
   NSModel.Search k s = (Throw ModelNotInitialized, s)).
Proof.
  intros Hp.
  unfold NSModel.Search_self, NSModel.Dataset, NSModel.Naive,
    NSModel.SingleMode, NSModel.Search.
  cbv beta iota zeta delta [bind gets modify ret throw].
  rewrite Hp. repeat split. intros ->. reflexivity.
Qed.

(** X14: in dual-index mode, when the traversal returns no column (an empty
    query set) Search returns and the caller's neighbors matrix has no
    column and the rows of the raw output, whatever it held before and
    whatever the permutation map is. *)
Theorem Search_of_nothing (TreeType : TreeTypes) (k : nat)
    (s : NeighborSearchLeaf.search_store) ns' nOut dOut :
  naive (NeighborSearchLeaf.ns (NeighborSearchLeaf.this s)) = false ->
  singleMode (NeighborSearchLeaf.ns (NeighborSearchLeaf.this s)) = false ->
  ns_Search_tree TreeType
    (fst (build_tree TreeType (NeighborSearchLeaf.querySet s)
            (NeighborSearchLeaf.leafSize (NeighborSearchLeaf.this s)))) k
    (NeighborSearchLeaf.ns (NeighborSearchLeaf.this s), empty_mat, empty_mat)
    = (Ret tt, (ns', nOut, dOut)) ->
  n_cols nOut = 0 ->
  fst (NeighborSearchLeaf.Search TreeType k s) = Ret tt /\
  NeighborSearchLeaf.neighbors (snd (NeighborSearchLeaf.Search TreeType k s))
    = mkMat (n_rows nOut) [] /\
  n_rows (NeighborSearchLeaf.distances
            (snd (NeighborSearchLeaf.Search TreeType k s))) = n_rows dOut /\
  n_cols (NeighborSearchLeaf.distances
            (snd (NeighborSearchLeaf.Search TreeType k s))) = n_cols dOut.
Proof.
  intros Hn Hs Hsearch Hz.
  rewrite (Search_dual_eq TreeType k s _ ns' nOut dOut Hn Hs Hsearch).
  cbv beta iota zeta. rewrite Hz. simpl.
  destruct (n_cols_set_size uninit_d (n_rows dOut) (n_cols dOut)
              (NeighborSearchLeaf.distances s)) as [Hc Hr].
  repeat split; try done.
  unfold set_size. case_decide as Hsame.
  - destruct Hsame as [Hrows Hcols].
    destruct (NeighborSearchLeaf.neighbors s) as [r [|c cs]]; simpl in *.
    + by subst r.
    + discriminate.
  - reflexivity.
Qed.

End EdgeFacts.

(* ------------------------------------------------------------------ *)
(** * These properties on the small instance                           *)
(* ------------------------------------------------------------------ *)

Section MoreInstances.
Import Example.

Local Existing Instance arma.
Local Existing Instance spill.
Local Existing Instance file_treeType.
Local Existing Instance file_bool.
Local Existing Instance file_mat.
Local Existing Instance file_pointer.

(** An untrained engine refuses k = 1: the two matrices of the caller keep
    their two columns. *)
Lemma Search_failure_keeps_outputs_witness :
  NeighborSearchLeaf.neighbors
    (snd (NeighborSearchLeaf.Search (Lib := strict) KD_TREE 1 untrained_searching))
  = mkMat 1 [[4]; [2]].
Proof.
  exact (proj1 (proj2 (Search_failure_keeps_outputs (Lib := strict) KD_TREE 1
           untrained_searching _ _ _ _ eq_refl eq_refl eq_refl
           ltac:(discriminate)))).
Defined.

Lemma Search_writes_every_column_witness :
  exists s',
    NeighborSearchLeaf.Search (Lib := lib) KD_TREE 1 leaf_searching = (Ret tt, s') /\
    n_cols (NeighborSearchLeaf.neighbors s') = 3 /\
    exists i c, rev (seq 0 3) !! i = Some 0 /\
                cols (NeighborSearchLeaf.neighbors s') !! 0 = Some c.
Proof.
  destruct (Search_writes_every_column (Lib := lib) KD_TREE 1 leaf_searching
              _ _ _ eq_refl eq_refl eq_refl
              (Permutation_sym (Permutation_rev (seq 0 3))) eq_refl)
    as (s' & Hrun & Hn & _ & Hall).
  exists s'. split; [exact Hrun|]. split; [exact Hn|].
  destruct (Hall 0 ltac:(vm_compute; lia)) as (i & c & d & Hi & _ & Hc & _).
  exists i, c. split; [exact Hi|exact Hc].
Defined.

(** Overlap 1 is kept by the constructor; loading a file that holds
    overlap -1 gives an object with overlap -1. *)
Lemma tau_changes_only_by_loading_witness :
  SpillSearch.tau (SpillSearch.this
    (snd (SpillSearch.new_from_set (Lib := spill) points false false
            1%float 0%float tt))) = 1%float /\
  SpillSearch.tau (SpillSearch.this
    (snd (SpillSearch.Serialize (Lib := spill) (ArEngine := file_engine)
            (ArDouble := file_double) true cover_file spill_searching)))
  = (-1)%float.
Proof.
  pose proof (tau_changes_only_by_loading (Lib := spill)
                (ArEngine := file_engine) (ArDouble := file_double) points
                (points, 0%float) false false 1%float 0%float tt 1
                (points, 0%float)) as (Hmade & _ & _ & Hload).
  split.
  - exact (proj1 (Hmade _ (or_introl eq_refl) eq_refl)).
  - exact (f_equal (fun x => SpillSearch.tau (SpillSearch.this (snd x)))
             (Hload cover_file _ _ spill_searching _ _ eq_refl eq_refl)).
Defined.


(** Searching the rotated model: the basis is the identity, the caller's
    matrix comes back as the three points, and the distances are those the
    engine found for them. *)
Lemma Search_maps_query_into_basis_witness :
  NSModel.data (snd (NSModel.Search (Lib := lib) 1 rotated)) = points /\
  NSModel.distances (snd (NSModel.Search (Lib := lib) 1 rotated))
  = mkMat 1 [[0%float]; [1%float]; [5%float]].
Proof.
  destruct (proj2 (Search_maps_query_into_basis (Lib := lib) 1 rotated 0 _
                     eq_refl (lookup_singleton_eq _ _)) (fun _ => eq_refl))
    as (Hd & _ & Hrun).
  split.
  - etransitivity; [exact Hd|]. vm_compute. reflexivity.
  - etransitivity; [exact (f_equal (fun x => NSModel.distances (snd x)) Hrun)|].
    vm_compute. reflexivity.
Defined.

Lemma BuildModel_initializes_witness :
  exists set,
    fst (NSModel.Dataset (Lib := lib)
           (snd (NSModel.BuildModel (Lib := lib) 5 20 false false unbuilt)))
    = Ret set.
Proof.
  destruct (BuildModel_initializes (Arma := arma) (Lib := lib) 5 20 false false
              unbuilt
              (fun _ => ltac:(vm_compute; reflexivity)))
    as (e & _ & _ & Hd & _).
  eexists. exact Hd.
Defined.


Lemma leafSize_is_for_leaf_wrappers_witness :
  exists rest,
    NSModel.calls
      (snd (NSModel.BuildModel (Lib := lib) 0 7 false false
              (NSModel.with_args points
                 (NSModel.fresh_store (NSModel.new KD_TREE false)))))
    = [] ++ TreeBuilt KD_TREE points 7 :: rest.
Proof.
  exact (proj2 (leafSize_is_for_leaf_wrappers (Lib := lib) 0 7 9 false false
           (NSModel.with_args points
              (NSModel.fresh_store (NSModel.new KD_TREE false))))
           eq_refl eq_refl eq_refl).
Defined.

Lemma names_tell_models_apart_witness :
  NSModel.treeType (NSModel.new BALL_TREE true)
  = NSModel.treeType (NSModel.new BALL_TREE false).
Proof.
  exact (proj1 (names_tell_models_apart (NSModel.new BALL_TREE true)
           (NSModel.new BALL_TREE false)
           NSModel.NearestNeighborSort NSModel.NearestNeighborSort) eq_refl).
Defined.


(** Loading a file with a cover-tree engine into the built kd-tree model
    releases engine 0 and makes engine 1. *)
Lemma Serialize_keeps_ownership_witness :
  NSModel.allocs
    (snd (NSModel.Serialize (Lib := lib) NSModel.NearestNeighborSort true
            cover_file built))
  = NSModel.allocs built ++ [NSModel.Delete 0] ++ [NSModel.New 1].
Proof.
  assert (Hs : NSModel.sound built).
  { apply (sound_run_op (Lib := lib)
             (NSModel.DoBuildModel 0 points 20 false false)).
    apply sound_fresh. }
  etransitivity;
    [exact (proj2 (Serialize_keeps_ownership (Lib := lib)
              NSModel.NearestNeighborSort true cover_file built Hs) eq_refl
              _ _ _ _ _ _ _ _ eq_refl eq_refl eq_refl eq_refl)|].
  vm_compute. reflexivity.
Defined.



Lemma failed_calls_change_nothing_witness :
  NSModel.Dataset (Lib := lib) unbuilt = (Throw ModelNotInitialized, unbuilt).
Proof.
  exact (proj1 (proj2 (failed_calls_change_nothing (Lib := lib) 1 unbuilt
           eq_refl))).
Defined.

Lemma Search_of_nothing_witness :
  NeighborSearchLeaf.neighbors
    (snd (NeighborSearchLeaf.Search (Lib := lib) KD_TREE 1 leaf_searching_nothing))
  = mkMat 1 [].
Proof.
  exact (proj1 (proj2 (Search_of_nothing (Lib := lib) KD_TREE 1
           leaf_searching_nothing _ _ _ eq_refl eq_refl eq_refl eq_refl))).
Defined.

End MoreInstances.
